(** * Analyse en Composantes Principales: a shallow embedding of
      [src/python/pca_analysis.py] (class [AnalyseACP]).

    The Python class wraps a scikit-learn [PCA] estimator and derives from
    its fitted attributes the loadings, the communalities, the two retention
    rules (Kaiser, cumulative variance) and the dominant variables of each
    component.  The methods are embedded as computations in a small
    state-and-exception monad over the object [self]; numpy and pandas
    primitives are embedded as list functions.  Numbers are kept abstract
    behind the class [Num], with two instances: IEEE binary64 (what the
    program runs on) and the real numbers (exact arithmetic). *)

From Stdlib Require Import String Ascii List ZArith Lia Bool Arith Permutation.
From Stdlib Require Import Reals Lra Floats.
From Stdlib Require DecimalString DecimalNat.
Import ListNotations.
#[local] Set Warnings "-inexact-float".
#[local] Open Scope nat_scope.

(** ** Python outcomes: a value or a raised exception *)

Module Py.

Inductive exn : Type :=
| AttributeError | ValueError | IndexError | KeyError | TypeError
| NotFittedError | DimensionMismatchError.

Inductive outcome (A : Type) : Type :=
| Ok (a : A)
| Raise (e : exn).
Arguments Ok {A} a.
Arguments Raise {A} e.

Definition obind {A B} (o : outcome A) (k : A -> outcome B) : outcome B :=
  match o with
  | Ok a => k a
  | Raise e => Raise e
  end.

(** [d[k] = v] on an insertion-ordered dict: an existing key keeps its
    position and gets the new value, a new key goes last. *)
Fixpoint dict_set {K V} (eqb : K -> K -> bool) (d : list (K * V)) (k : K) (v : V)
  : list (K * V) :=
  match d with
  | [] => [(k, v)]
  | (k', v') :: d' =>
      if eqb k' k then (k, v) :: d' else (k', v') :: dict_set eqb d' k v
  end.

Fixpoint dict_get {K V} (eqb : K -> K -> bool) (d : list (K * V)) (k : K) : option V :=
  match d with
  | [] => None
  | (k', v') :: d' => if eqb k' k then Some v' else dict_get eqb d' k
  end.

Definition dict_keys {K V} (d : list (K * V)) : list K := map fst d.

(** [dict(pairs)]: successive assignments into an empty dict. *)
Definition dict_of {K V} (eqb : K -> K -> bool) (l : list (K * V)) : list (K * V) :=
  fold_left (fun d kv => dict_set eqb d (fst kv) (snd kv)) l [].

End Py.
Import Py.

Notation "x <-- o ;; k" := (obind o (fun x => k))
  (at level 61, o at next level, right associativity).

(** ** The arithmetic the program relies on *)

Class Num (F : Type) : Type := {
  c0 : F;                         (* 0.0 *)
  c1 : F;                         (* the literal 1 of [> 1] *)
  c100 : F;                       (* the literal 100 *)
  c0_80 : F;                      (* the default threshold 0.80 *)
  fadd : F -> F -> F;
  fmul : F -> F -> F;
  fsqrt : F -> F;
  fabs : F -> F;
  flt : F -> F -> bool;           (* x < y *)
  fle : F -> F -> bool;           (* x <= y *)
  fisnan : F -> bool;
  fround : nat -> F -> F          (* np.round(x, decimals) *)
}.

(** Labels of rows and columns, and the cells of a column of names: pandas
    accepts any hashable; strings, integers and [None] are the ones that
    occur. *)
Inductive label : Type :=
| LStr (s : string)
| LInt (z : Z)
| LNone.

Definition label_eqb (a b : label) : bool :=
  match a, b with
  | LStr s, LStr t => String.eqb s t
  | LInt x, LInt y => Z.eqb x y
  | LNone, LNone => true
  | _, _ => false
  end.

Definition str_of_nat (n : nat) : string :=
  DecimalString.NilEmpty.string_of_uint (Nat.to_uint n).

(** [f"CP{i+1}"] *)
Definition cp_name (i : nat) : label := LStr (String.append "CP" (str_of_nat (i + 1))).

(** ** numpy *)

Module np.
Section WithNum.
Context {F : Type} `{Num F}.

(** A two-dimensional array: its shape and its rows. *)
Record array2 : Type := mkArray2 {
  nrow : nat;
  ncol : nat;
  item : list (list F)
}.

Definition shaped (a : array2) : Prop :=
  length (item a) = nrow a /\ Forall (fun r => length r = ncol a) (item a).

(** [a[i, j]] for indices in range. *)
Definition get (a : array2) (i j : nat) : F := nth j (nth i (item a) []) c0.

(** [a.T] *)
Definition T (a : array2) : array2 :=
  {| nrow := ncol a;
     ncol := nrow a;
     item := map (fun j => map (fun r => nth j r c0) (item a)) (seq 0 (ncol a)) |}.

(** [np.sqrt(v)] *)
Definition sqrt (v : list F) : list F := map fsqrt v.

(** [a * v] for a 2-D [a] and a 1-D [v], with numpy's broadcasting: the
    trailing dimensions must agree or one of them must be 1. *)
Definition mul_broadcast (a : array2) (v : list F) : outcome array2 :=
  if length v =? ncol a then
    Ok {| nrow := nrow a; ncol := ncol a;
          item := map (fun r => map (fun xy => fmul (fst xy) (snd xy)) (combine r v))
                      (item a) |}
  else if length v =? 1 then
    Ok {| nrow := nrow a; ncol := ncol a;
          item := map (fun r => map (fun x => fmul x (nth 0 v c0)) r) (item a) |}
  else if ncol a =? 1 then
    Ok {| nrow := nrow a; ncol := length v;
          item := map (fun r => map (fun y => fmul (nth 0 r c0) y) v) (item a) |}
  else Raise ValueError.

(** [np.cumsum(v)]: running sums, accumulated from the left. *)
Fixpoint cumsum_from (acc : F) (v : list F) : list F :=
  match v with
  | [] => []
  | x :: v' => let s := fadd acc x in s :: cumsum_from s v'
  end.

Definition cumsum (v : list F) : list F :=
  match v with
  | [] => []
  | x :: v' => x :: cumsum_from x v'
  end.

(** [v > s] and [v >= s], element by element. *)
Definition gt (v : list F) (s : F) : list bool := map (fun x => flt s x) v.
Definition ge (v : list F) (s : F) : list bool := map (fun x => fle s x) v.

(** [np.sum(mask)] of a boolean array: the number of [True]. *)
Definition sum_bool (m : list bool) : Z :=
  fold_left (fun acc (b : bool) => if b then (acc + 1)%Z else acc) m 0%Z.

(** [np.argmax(mask)]: the position of the first occurrence of the
    maximum ([False < True]); an empty array raises. *)
Fixpoint argmax_from (best : bool) (besti i : nat) (m : list bool) : nat :=
  match m with
  | [] => besti
  | b :: m' =>
      if negb best && b then argmax_from b i (S i) m'
      else argmax_from best besti (S i) m'
  end.

Definition argmax (m : list bool) : outcome nat :=
  match m with
  | [] => Raise ValueError
  | b :: m' => Ok (argmax_from b 0 1 m')
  end.

(** [v[i]] for [i >= 0]. *)
Definition getitem (v : list F) (i : nat) : outcome F :=
  match nth_error v i with
  | Some x => Ok x
  | None => Raise IndexError
  end.

(** [np.round(v, d)] *)
Definition round (d : nat) (v : list F) : list F := map (fround d) v.

End WithNum.
Arguments array2 F : clear implicits.
End np.

(** ** pandas *)

Module pd.
Section WithNum.
Context {F : Type} `{Num F}.

Record Series : Type := mkSeries {
  s_index : list label;
  s_values : list F
}.

Record DataFrame : Type := mkDataFrame {
  index : list label;
  columns : list label;
  values : np.array2 F
}.

Definition RangeIndex (n : nat) : list label :=
  map (fun i => LInt (Z.of_nat i)) (seq 0 n).

(** [pd.DataFrame(a, index=..., columns=...)]: the labels must match the
    shape of [a]. *)
Definition mk (a : np.array2 F) (idx : option (list label)) (cols : list label)
  : outcome DataFrame :=
  let idx' := match idx with Some l => l | None => RangeIndex (np.nrow a) end in
  if (length idx' =? np.nrow a) && (length cols =? np.ncol a)
  then Ok {| index := idx'; columns := cols; values := a |}
  else Raise ValueError.

(** Positions of a label in an index. *)
Fixpoint positions_from (k : nat) (l : list label) (x : label) : list nat :=
  match l with
  | [] => []
  | y :: l' =>
      if label_eqb y x then k :: positions_from (S k) l' x
      else positions_from (S k) l' x
  end.
Definition positions := positions_from 0.

Definition column_at (df : DataFrame) (k : nat) : list F :=
  map (fun r => nth k r c0) (np.item (values df)).

(** [df[c]]: the column labelled [c] as a Series.  A missing label raises
    [KeyError]; a repeated label selects a sub-frame, on which the Series
    methods applied afterwards ([sort_values()] without [by]) raise
    [TypeError]. *)
Definition getcol (df : DataFrame) (c : label) : outcome Series :=
  match positions (columns df) c with
  | [] => Raise KeyError
  | [k] => Ok {| s_index := index df; s_values := column_at df k |}
  | _ => Raise TypeError
  end.

(** [s.abs()] *)
Definition abs (s : Series) : Series :=
  {| s_index := s_index s; s_values := map fabs (s_values s) |}.

(** [s.take(positions)] for positions in range. *)
Definition take (s : Series) (ps : list nat) : Series :=
  {| s_index := map (fun p => nth p (s_index s) (LInt 0)) ps;
     s_values := map (fun p => nth p (s_values s) c0) ps |}.

(** [s.sort_values(ascending=False)].  The order is computed by the
    library (pandas' [nargsort] over numpy's default, non-stable,
    quicksort); [order] is that computation: from the values to the
    positions in their sorted order. *)
Definition sort_values_desc (order : list F -> list nat) (s : Series) : Series :=
  take s (order (s_values s)).

(** [s.head(n)]: the first [n] rows; for negative [n], all rows but the
    last [-n]. *)
Definition head_count (len : nat) (n : Z) : nat :=
  if (0 <=? n)%Z then Z.to_nat n else len - Z.to_nat (- n).

Definition head (s : Series) (n : Z) : Series :=
  let m := head_count (length (s_values s)) n in
  {| s_index := firstn m (s_index s); s_values := firstn m (s_values s) |}.

(** [df.loc[labels, c]]: for each requested label, in turn, every row
    carrying it; a label that is absent raises [KeyError]. *)
Fixpoint rows_of (idx : list label) (labels : list label) : outcome (list nat) :=
  match labels with
  | [] => Ok []
  | x :: labels' =>
      match positions idx x with
      | [] => Raise KeyError
      | ps => rest <-- rows_of idx labels' ;; Ok (ps ++ rest)
      end
  end.

Definition loc (df : DataFrame) (labels : list label) (c : label) : outcome Series :=
  col <-- getcol df c ;;
  ps <-- rows_of (index df) labels ;;
  Ok (take col ps).

(** [s.to_dict()] *)
Definition to_dict (s : Series) : list (label * F) :=
  dict_of label_eqb (combine (s_index s) (s_values s)).

(** [(df ** 2).sum(axis=1)]: pandas skips NaN when it sums. *)
Definition row_sum (r : list F) : F :=
  fold_left (fun acc x => if fisnan x then acc else fadd acc x) r c0.

Definition square (df : DataFrame) : DataFrame :=
  {| index := index df; columns := columns df;
     values := {| np.nrow := np.nrow (values df); np.ncol := np.ncol (values df);
                  np.item := map (map (fun x => fmul x x)) (np.item (values df)) |} |}.

Definition sum_axis1 (df : DataFrame) : Series :=
  {| s_index := index df; s_values := map row_sum (np.item (values df)) |}.

End WithNum.
Arguments Series F : clear implicits.
Arguments DataFrame F : clear implicits.
End pd.

(** ** The estimator and the analysis object *)

Section Model.
Context {F : Type} `{Num F}.

(** The attributes scikit-learn's [PCA.fit] leaves on the estimator. *)
Record PCAFit : Type := mkPCAFit {
  n_components_ : nat;
  components_ : np.array2 F;              (* K rows of length N *)
  explained_variance_ : list F;
  explained_variance_ratio_ : list F
}.

Inductive PCA : Type :=
| Unfitted (n_components : option Z)
| Fitted (n_components : option Z) (a : PCAFit).

(** The frame of [valeurs_propres], column by column. *)
Record ValeursPropres : Type := mkValeursPropres {
  Composante : list label;
  Valeur_Propre : list F;
  Variance_pct : list F;
  Cumul_pct : list F
}.

(** The frame of [communalites], with its columns "Variable" and
    "Communalite". *)
Record Communalites : Type := mkCommunalites {
  Variable_ : list label;
  Communalite : list F
}.

(** What [self.resultats] holds. *)
Inductive Table : Type :=
| TValeursPropres (t : ValeursPropres)
| TLoadings (df : pd.DataFrame F)
| TCommunalites (t : Communalites).

Record AnalyseACP : Type := mkAnalyseACP {
  n_composantes : option Z;
  pca : option PCA;
  noms_variables : option (list label);
  resultats : list (string * Table)
}.

(** The value [interpreter] stores for a component. *)
Record Interpretation : Type := mkInterpretation {
  variables_dominantes : list (label * F);
  variance_expliquee : F
}.

(** Methods run on [self], which they may update; an exception leaves the
    updates made before it. *)
Definition M (A : Type) : Type := AnalyseACP -> outcome A * AnalyseACP.

Definition ret {A} (a : A) : M A := fun self => (Ok a, self).

Definition bind {A B} (m : M A) (k : A -> M B) : M B :=
  fun self =>
    match m self with
    | (Ok a, self') => k a self'
    | (Raise e, self') => (Raise e, self')
    end.

Definition lift {A} (o : outcome A) : M A := fun self => (o, self).

Definition update (f : AnalyseACP -> AnalyseACP) : M unit :=
  fun self => (Ok tt, f self).

(** [self.pca.<fitted attribute>] *)
Definition fitted_attrs : M PCAFit :=
  fun self =>
    match pca self with
    | Some (Fitted _ a) => (Ok a, self)
    | _ => (Raise AttributeError, self)
    end.

(** [self.resultats[k] = t] *)
Definition set_resultat (k : string) (t : Table) : M unit :=
  update (fun self =>
    {| n_composantes := n_composantes self;
       pca := pca self;
       noms_variables := noms_variables self;
       resultats := dict_set String.eqb (resultats self) k t |}).

End Model.
Arguments PCAFit F : clear implicits.
Arguments PCA F : clear implicits.
Arguments AnalyseACP F : clear implicits.
Arguments Interpretation F : clear implicits.
Arguments Table F : clear implicits.
Arguments ValeursPropres F : clear implicits.
Arguments Communalites F : clear implicits.

Notation "x <- m ; k" := (bind m (fun x => k))
  (at level 61, m at next level, right associativity).
Notation "m ;;; k" := (bind m (fun _ => k))
  (at level 61, right associativity).

Section Methods.
Context {F : Type} `{Num F}.

(** The library calls the class delegates to: scikit-learn's
    [PCA(n_components).fit(X)] and [PCA.transform(X)], and the order
    pandas computes for [sort_values(ascending=False)]. *)
Variable sk_fit : option Z -> pd.DataFrame F -> outcome (PCAFit F).
Variable sk_transform : PCAFit F -> pd.DataFrame F -> outcome (np.array2 F).
Variable argsort_desc : list F -> list nat.

(** [AnalyseACP(n_composantes)] *)
Definition __init__ (n_composantes : option Z) : AnalyseACP F :=
  {| n_composantes := n_composantes; pca := None;
     noms_variables := None; resultats := [] |}.

(** [ajuster]: [self.noms_variables = X.columns.tolist()], then
    [self.pca = PCA(n_components=self.n_composantes)], then
    [self.pca.fit(X)], whose exception, if any, goes to the caller; the
    message printed afterwards reads [self.pca.n_components_]. *)
Definition ajuster (X : pd.DataFrame F) : M unit :=
  update (fun self =>
    {| n_composantes := n_composantes self;
       pca := pca self;
       noms_variables := Some (pd.columns X);
       resultats := resultats self |}) ;;;
  update (fun self =>
    {| n_composantes := n_composantes self;
       pca := Some (Unfitted (n_composantes self));
       noms_variables := noms_variables self;
       resultats := resultats self |}) ;;;
  (fun self =>
     match sk_fit (n_composantes self) X with
     | Ok a =>
         (Ok tt, {| n_composantes := n_composantes self;
                    pca := Some (Fitted (n_composantes self) a);
                    noms_variables := noms_variables self;
                    resultats := resultats self |})
     | Raise e => (Raise e, self)
     end) ;;;
  _ <- fitted_attrs ;
  ret tt.

(** [transformer]: [scores = self.pca.transform(X)], returned as a frame
    with the columns CP1, CP2, ... and the default row index. *)
Definition transformer (X : pd.DataFrame F) : M (pd.DataFrame F) :=
  fun self =>
    match pca self with
    | None => (Raise AttributeError, self)
    | Some (Unfitted _) => (Raise NotFittedError, self)
    | Some (Fitted _ a) =>
        (scores <-- sk_transform a X ;;
         pd.mk scores None (map cp_name (seq 0 (np.ncol scores))), self)
    end.

(** [ajuster_transformer]: [self.ajuster(X)], then
    [self.transformer(X)]. *)
Definition ajuster_transformer (X : pd.DataFrame F) : M (pd.DataFrame F) :=
  ajuster X ;;; transformer X.

(** [valeurs_propres]: the eigenvalues rounded to 4 decimals, the
    proportions and their running sums in percent rounded to 2. *)
Definition valeurs_propres : M (ValeursPropres F) :=
  a <- fitted_attrs ;
  let vp := explained_variance_ a in
  let ratio := explained_variance_ratio_ a in
  let cumul := np.cumsum ratio in
  if (length ratio =? length vp) && (length cumul =? length vp) then
    let df := {| Composante := map cp_name (seq 0 (length vp));
                 Valeur_Propre := np.round 4 vp;
                 Variance_pct := np.round 2 (map (fun r => fmul r c100) ratio);
                 Cumul_pct := np.round 2 (map (fun r => fmul r c100) cumul) |} in
    set_resultat "valeurs_propres" (TValeursPropres df) ;;;
    ret df
  else lift (Raise ValueError).

(** [loadings]:
    [L = self.pca.components_.T * np.sqrt(self.pca.explained_variance_)],
    framed with [index=self.noms_variables] and the columns CP1, CP2, ...,
    stored under "loadings" and returned. *)
Definition loadings : M (pd.DataFrame F) :=
  a <- fitted_attrs ;
  L <- lift (np.mul_broadcast (np.T (components_ a)) (np.sqrt (explained_variance_ a))) ;
  let cols := map cp_name (seq 0 (np.ncol L)) in
  noms <- (fun self => (Ok (noms_variables self), self)) ;
  df <- lift (pd.mk L noms cols) ;
  set_resultat "loadings" (TLoadings df) ;;;
  ret df.

(** [communalites]: [h2 = (L ** 2).sum(axis=1)] on [L = self.loadings()],
    rounded to 4 decimals beside the variable names, stored under
    "communalites" and returned. *)
Definition communalites : M (Communalites F) :=
  L <- loadings ;
  let h2 := pd.sum_axis1 (pd.square L) in
  noms <- (fun self => (Ok (noms_variables self), self)) ;
  let names := match noms with
               | Some l => l
               | None => repeat LNone (length (pd.s_values h2))
               end in
  if length names =? length (pd.s_values h2) then
    let df := {| Variable_ := names;
                 Communalite := np.round 4 (pd.s_values h2) |} in
    set_resultat "communalites" (TCommunalites df) ;;;
    ret df
  else lift (Raise ValueError).

(** [critere_kaiser]: [int(np.sum(self.pca.explained_variance_ > 1))]. *)
Definition critere_kaiser : M Z :=
  a <- fitted_attrs ;
  let n := np.sum_bool (np.gt (explained_variance_ a) c1) in
  ret n.

(** [seuil_variance]: [cumul = np.cumsum(explained_variance_ratio_)],
    [n = int(np.argmax(cumul >= seuil)) + 1]; the message printed before
    returning reads [cumul[n-1]]. *)
Definition seuil_variance (seuil : F) : M Z :=
  a <- fitted_attrs ;
  let cumul := np.cumsum (explained_variance_ratio_ a) in
  k <- lift (np.argmax (np.ge cumul seuil)) ;
  let n := (Z.of_nat k + 1)%Z in
  _ <- lift (np.getitem cumul (Z.to_nat (n - 1))) ;
  ret n.

(** One turn of the loop of [interpreter], for the column [cp] at
    position [i]: [tri = L[cp].abs().sort_values(ascending=False)],
    [top = tri.head(n_top)], and the entry made of
    [L.loc[top.index, cp].to_dict()] and of
    [explained_variance_ratio_[i] * 100]; then its assignment
    [interp[cp] = ...]. *)
Definition interpreter_entry (a : PCAFit F) (L : pd.DataFrame F) (n_top : Z)
    (i : nat) (cp : label) : outcome (Interpretation F) :=
  col <-- pd.getcol L cp ;;
  let tri := pd.sort_values_desc argsort_desc (pd.abs col) in
  let top := pd.head tri n_top in
  dom <-- pd.loc L (pd.s_index top) cp ;;
  ratio <-- np.getitem (explained_variance_ratio_ a) i ;;
  Ok {| variables_dominantes := pd.to_dict dom;
        variance_expliquee := fmul ratio c100 |}.

Definition interpreter_step (a : PCAFit F) (L : pd.DataFrame F) (n_top : Z)
    (interp : list (label * Interpretation F)) (i : nat) (cp : label)
  : outcome (list (label * Interpretation F)) :=
  e <-- interpreter_entry a L n_top i cp ;;
  Ok (dict_set label_eqb interp cp e).

Fixpoint interpreter_loop (a : PCAFit F) (L : pd.DataFrame F) (n_top : Z)
    (interp : list (label * Interpretation F)) (i : nat) (cps : list label)
  : outcome (list (label * Interpretation F)) :=
  match cps with
  | [] => Ok interp
  | cp :: cps' =>
      interp' <-- interpreter_step a L n_top interp i cp ;;
      interpreter_loop a L n_top interp' (S i) cps'
  end.

(** [interpreter]: the loop over [enumerate(L.columns[:5])], from an empty
    dict. *)
Definition interpreter (n_top : Z) : M (list (label * Interpretation F)) :=
  L <- loadings ;
  a <- fitted_attrs ;
  lift (interpreter_loop a L n_top [] 0 (firstn 5 (pd.columns L))).

(** The defaults of the signatures: [seuil=0.80], [n_top=5]. *)
Definition seuil_variance_defaut : M Z := seuil_variance c0_80.
Definition interpreter_defaut : M (list (label * Interpretation F)) :=
  interpreter 5.

End Methods.

(** ** A reference order for [sort_values(ascending=False)]

    What pandas' [nargsort] computes when the underlying numpy sort keeps
    equal keys in place: the non-NaN positions are reversed, sorted in
    ascending order, reversed again, and the NaN positions follow. *)

Section ReferenceOrder.
Context {F : Type} `{Num F}.

Fixpoint insert_asc (v : list F) (p : nat) (l : list nat) : list nat :=
  match l with
  | [] => [p]
  | q :: l' =>
      if flt (nth p v c0) (nth q v c0) then p :: q :: l'
      else q :: insert_asc v p l'
  end.

Definition argsort_stable (v : list F) (ps : list nat) : list nat :=
  fold_left (fun acc p => insert_asc v p acc) ps [].

Definition nargsort_desc (v : list F) : list nat :=
  let idx := seq 0 (length v) in
  let non_nan := filter (fun p => negb (fisnan (nth p v c0))) idx in
  let nan := filter (fun p => fisnan (nth p v c0)) idx in
  rev (argsort_stable v (rev non_nan)) ++ nan.

End ReferenceOrder.

(** ** IEEE binary64, the arithmetic of the running program *)

Module Binary64.

Definition two52 : float := 4503599627370496%float.

(** [np.rint]: to the nearest integer, ties to even. *)
Definition rint (y : float) : float :=
  if PrimFloat.ltb (PrimFloat.abs y) two52 then
    let r := PrimFloat.sub (PrimFloat.add (PrimFloat.abs y) two52) two52 in
    if PrimFloat.get_sign y then PrimFloat.opp r else r
  else y.

Fixpoint pow10 (d : nat) : float :=
  match d with
  | O => 1%float
  | S d' => PrimFloat.mul 10%float (pow10 d')
  end.

(** numpy rounds to [d] decimals by scaling, [rint], and scaling back. *)
Definition round (d : nat) (x : float) : float :=
  PrimFloat.div (rint (PrimFloat.mul x (pow10 d))) (pow10 d).

#[export] Instance float_Num : Num float := {|
  c0 := 0%float;
  c1 := 1%float;
  c100 := 100%float;
  c0_80 := 0.8%float;
  fadd := PrimFloat.add;
  fmul := PrimFloat.mul;
  fsqrt := PrimFloat.sqrt;
  fabs := PrimFloat.abs;
  flt := PrimFloat.ltb;
  fle := PrimFloat.leb;
  fisnan := PrimFloat.is_nan;
  fround := round
|}.

(** [explained_variance_ratio_] as scikit-learn derives it from the
    eigenvalues: each one divided by their sum. *)
Definition ratio_of (ev : list float) : list float :=
  let total := fold_left PrimFloat.add ev 0%float in
  map (fun x => PrimFloat.div x total) ev.

(** The attributes of an estimator fitted to the given components and
    eigenvalues. *)
Definition attrs_with (N : nat) (comps : list (list float)) (ev : list float)
  : PCAFit float :=
  {| n_components_ := length ev;
     components_ := {| np.nrow := length comps; np.ncol := N; np.item := comps |};
     explained_variance_ := ev;
     explained_variance_ratio_ := ratio_of ev |}.

Definition acp_with (names : list string) (comps : list (list float))
    (ev : list float) : AnalyseACP float :=
  {| n_composantes := None;
     pca := Some (Fitted None (attrs_with (length names) comps ev));
     noms_variables := Some (map LStr names);
     resultats := [] |}.

(** The eigenvalues of the boundary example, on the canonical basis,
    and a second triple whose proportions are exact in binary64. *)
Definition basis3 : list (list float) :=
  [[1; 0; 0]; [0; 1; 0]; [0; 0; 1]]%float.
Definition acp_24_04_02 : AnalyseACP float :=
  acp_with ["A"; "B"; "C"]%string basis3 [2.4; 0.4; 0.2]%float.
Definition acp_225_05_025 : AnalyseACP float :=
  acp_with ["A"; "B"; "C"]%string basis3 [2.25; 0.5; 0.25]%float.

(** One component over the variables A, B, C, with the loadings 0.8,
    -0.9 and 0.1. *)
Definition acp_abc : AnalyseACP float :=
  acp_with ["A"; "B"; "C"]%string [[0.8; -0.9; 0.1]]%float [1]%float.

(** Six variables, six components. *)
Definition basis6 : list (list float) :=
  [[1; 0; 0; 0; 0; 0]; [0; 1; 0; 0; 0; 0]; [0; 0; 1; 0; 0; 0];
   [0; 0; 0; 1; 0; 0]; [0; 0; 0; 0; 1; 0]; [0; 0; 0; 0; 0; 1]]%float.
Definition names6 : list string :=
  ["V1"; "V2"; "V3"; "V4"; "V5"; "V6"]%string.
Definition acp_six : AnalyseACP float :=
  acp_with names6 basis6 [2; 1.5; 1; 0.8; 0.5; 0.2]%float.

End Binary64.

(** ** Exact arithmetic over the reals *)

Module Exact.

Definition ltb (x y : R) : bool := if Rlt_dec x y then true else false.
Definition leb (x y : R) : bool := if Rle_dec x y then true else false.

(** To the nearest integer, ties to even. *)
Definition rint (x : R) : Z :=
  let n := Zfloor x in
  let d := (x - IZR n)%R in
  if Rlt_dec d (1 / 2) then n
  else if Rlt_dec (1 / 2) d then (n + 1)%Z
  else if Z.even n then n else (n + 1)%Z.

Definition round (d : nat) (x : R) : R :=
  (IZR (rint (x * 10 ^ d)) / 10 ^ d)%R.

#[export] Instance R_Num : Num R := {|
  c0 := 0%R;
  c1 := 1%R;
  c100 := 100%R;
  c0_80 := (8 / 10)%R;
  fadd := Rplus;
  fmul := Rmult;
  fsqrt := R_sqrt.sqrt;
  fabs := Rabs;
  flt := ltb;
  fle := leb;
  fisnan := fun _ => false;
  fround := round
|}.

End Exact.


(** ** Fitted objects and the values derived from them

    What scikit-learn guarantees on the shapes of the attributes after a
    successful [fit] on a frame of [N] columns that keeps [K] components. *)

Section Derived.
Context {F : Type} `{Num F}.

Record fitted_shape (a : PCAFit F) (N K : nat) : Prop := {
  fs_shaped : np.shaped (components_ a);
  fs_nrow : np.nrow (components_ a) = K;
  fs_ncol : np.ncol (components_ a) = N;
  fs_variance : length (explained_variance_ a) = K;
  fs_ratio : length (explained_variance_ratio_ a) = K;
  fs_count : n_components_ a = K
}.

(** [self] after [ajuster] on a frame whose columns are [names]. *)
Record fitted (self : AnalyseACP F) (a : PCAFit F) (names : list label)
    (N K : nat) : Prop := {
  fit_pca : exists nc, pca self = Some (Fitted nc a);
  fit_noms : noms_variables self = Some names;
  fit_names : length names = N;
  fit_shape : fitted_shape a N K
}.

(** The frame [loadings] builds on a fitted object. *)
Definition loadings_frame (a : PCAFit F) (names : list label) : pd.DataFrame F :=
  {| pd.index := names;
     pd.columns := map cp_name (seq 0 (np.nrow (components_ a)));
     pd.values :=
       {| np.nrow := np.ncol (components_ a);
          np.ncol := np.nrow (components_ a);
          np.item :=
            map (fun r => map (fun xy => fmul (fst xy) (snd xy))
                              (combine r (np.sqrt (explained_variance_ a))))
                (np.item (np.T (components_ a))) |} |}.

(** [self] once [self.resultats[k] = t] has run. *)
Definition with_resultat (self : AnalyseACP F) (k : string) (t : Table F)
  : AnalyseACP F :=
  {| n_composantes := n_composantes self;
     pca := pca self;
     noms_variables := noms_variables self;
     resultats := dict_set String.eqb (resultats self) k t |}.

(** The loading of variable [p] on component [i], and the absolute
    loadings of component [i] in variable order. *)
Definition loading (a : PCAFit F) (i p : nat) : F :=
  fmul (np.get (components_ a) i p) (fsqrt (nth i (explained_variance_ a) c0)).

Definition abs_loadings (a : PCAFit F) (N i : nat) : list F :=
  map (fun p => fabs (loading a i p)) (seq 0 N).

(** The communalities before rounding: for each variable, the sum of its
    squared loadings. *)
Definition h2_of (L : pd.DataFrame F) : list F :=
  map pd.row_sum (map (map (fun x => fmul x x)) (np.item (pd.values L))).

(** The sum of the first [m] entries, accumulated from the left. *)
Definition cumulative (v : list F) (m : nat) : F :=
  match firstn m v with
  | [] => c0
  | x :: t => fold_left fadd t x
  end.

(** The order returned by the library is a rearrangement of the
    positions. *)
Definition valid_order (argsort_desc : list F -> list nat) : Prop :=
  forall v, Permutation (argsort_desc v) (seq 0 (length v)).

(** The order is descending on [v]: no position comes before one of
    strictly larger value. *)
Definition sorted_desc (v : list F) (order : list nat) : Prop :=
  ForallOrdPairs (fun p q => flt (nth p v c0) (nth q v c0) = false) order.

(** The variables of component [i] in the order of [sort_values], cut by
    [head(n_top)]. *)
Definition ranking (argsort_desc : list F -> list nat) (a : PCAFit F)
    (names : list label) (N : nat) (i : nat) (n_top : Z) : list nat :=
  firstn (pd.head_count N n_top)
         (argsort_desc (map fabs (pd.column_at (loadings_frame a names) i))).

(** A rearrangement that is descending and yet lists equal values in the
    reverse of their positions: what a sort that does not keep equal keys
    in place may return. *)
Definition reversed_ties (v : list F) : list nat :=
  rev (argsort_stable v (seq 0 (length v))).

(** The inner product of two rows, accumulated from the left. *)
Definition dot (r c : list F) : F :=
  fold_left fadd (map (fun xy => fmul (fst xy) (snd xy)) (combine r c)) c0.

(** Modelled from the spec: the scores of the Projection Module, the
    matrix multiplied by the components taken as columns; scikit-learn's
    [PCA.transform], which [transformer] calls, is outside the
    repository. *)
Definition scores_of (X : pd.DataFrame F) (a : PCAFit F) : np.array2 F :=
  {| np.nrow := np.nrow (pd.values X);
     np.ncol := np.nrow (components_ a);
     np.item := map (fun r => map (fun c => dot r c) (np.item (components_ a)))
                    (np.item (pd.values X)) |}.

(** Modelled from the spec: the projection with its error, a column count
    other than the fitted one being a dimension mismatch; it stands for
    [PCA.transform]. *)
Definition projection (a : PCAFit F) (X : pd.DataFrame F) : outcome (np.array2 F) :=
  if np.ncol (pd.values X) =? np.ncol (components_ a) then Ok (scores_of X a)
  else Raise DimensionMismatchError.

End Derived.

(** ** The decomposition in exact arithmetic *)

Module ExactPCA.
Import Exact.
#[local] Open Scope R_scope.

Fixpoint bigsum (n : nat) (f : nat -> R) : R :=
  match n with
  | O => 0
  | S m => bigsum m f + f m
  end.

Definition delta (k l : nat) : R := if Nat.eqb k l then 1 else 0.

Section Statistics.
Variable X : pd.DataFrame R.

Definition n_obs : nat := np.nrow (pd.values X).
Definition n_var : nat := np.ncol (pd.values X).
Definition cell (i j : nat) : R := np.get (pd.values X) i j.

Definition col_mean (j : nat) : R :=
  bigsum n_obs (fun i => cell i j) / INR n_obs.

Definition centred (i j : nat) : R := cell i j - col_mean j.

(** Variance with the [n - 1] denominator, the one [explained_variance_]
    is expressed in. *)
Definition sample_variance (j : nat) : R :=
  bigsum n_obs (fun i => centred i j * centred i j) / (INR n_obs - 1).

(** Variance with the [n] denominator, the one
    [StandardScaler] of [standardiser_acp] scales to 1. *)
Definition population_variance (j : nat) : R :=
  bigsum n_obs (fun i => centred i j * centred i j) / INR n_obs.

(** Modelled from the spec: the invariant of a StandardizedMatrix, each
    column of sample mean 0 and sample standard deviation 1. *)
Definition standardized : Prop :=
  forall j, (j < n_var)%nat -> col_mean j = 0 /\ sample_variance j = 1.

(** Modelled from the spec: what [fit] computes, since scikit-learn's
    [PCA.fit] is outside the repository.  The centred matrix has a
    singular value decomposition [U S V^T] over [min(n, N)] terms, with
    orthonormal left and right singular vectors; the estimator keeps the
    first [K] right singular vectors as [components_] and
    [S_k^2 / (n - 1)] as [explained_variance_]. *)
Record pca_of (a : PCAFit R) (U : nat -> nat -> R) (S : nat -> R)
    (V : nat -> nat -> R) : Prop := {
  pca_rank : (n_components_ a <= Nat.min n_obs n_var)%nat;
  pca_left : forall k l, (k < Nat.min n_obs n_var)%nat ->
             (l < Nat.min n_obs n_var)%nat ->
             bigsum n_obs (fun i => U i k * U i l) = delta k l;
  pca_right : forall k l, (k < Nat.min n_obs n_var)%nat ->
              (l < Nat.min n_obs n_var)%nat ->
              bigsum n_var (fun j => V k j * V l j) = delta k l;
  pca_svd : forall i j, (i < n_obs)%nat -> (j < n_var)%nat ->
            centred i j =
            bigsum (Nat.min n_obs n_var) (fun k => U i k * S k * V k j);
  pca_components : forall k j, (k < n_components_ a)%nat -> (j < n_var)%nat ->
                   np.get (components_ a) k j = V k j;
  pca_variance : forall k, (k < n_components_ a)%nat ->
                 nth k (explained_variance_ a) 0 = S k * S k / (INR n_obs - 1)
}.

End Statistics.

End ExactPCA.

(** ** A standardized matrix and its decomposition, in exact arithmetic *)

Module ExactExample.
Import Exact ExactPCA.
#[local] Open Scope R_scope.

(** Five observations of two uncorrelated standardized variables. *)
Definition X5 : pd.DataFrame R :=
  {| pd.index := pd.RangeIndex 5;
     pd.columns := [LStr "x"; LStr "y"];
     pd.values := {| np.nrow := 5; np.ncol := 2;
                     np.item := [[1; 1]; [1; -1]; [-1; 1]; [-1; -1]; [0; 0]] |} |}.

Definition attrs5 : PCAFit R :=
  {| n_components_ := 2;
     components_ := {| np.nrow := 2; np.ncol := 2; np.item := [[1; 0]; [0; 1]] |};
     explained_variance_ := [1; 1];
     explained_variance_ratio_ := [1 / 2; 1 / 2] |}.

Definition acp5 : AnalyseACP R :=
  {| n_composantes := None;
     pca := Some (Fitted None attrs5);
     noms_variables := Some [LStr "x"; LStr "y"];
     resultats := [] |}.

Definition U5 (i k : nat) : R := cell X5 i k / 2.
Definition S5 (k : nat) : R := 2.
Definition V5 (k j : nat) : R := delta k j.

End ExactExample.

(** ** Saving the results

    [sauvegarder] writes three CSV files under [TABLES_DIR].  A file is
    kept as the table [to_csv] was given and the [index] flag it was given
    with; the directory is the one [os.makedirs] has just made sure of, and
    failures of the operating system are left out. *)

Section Saving.
Context {F : Type} `{Num F}.

Record CsvFile : Type := mkCsvFile {
  csv_table : Table F;
  csv_index : bool
}.

(** The directories known to exist and the files written, each under its
    directory and name. *)
Record Disk : Type := mkDisk {
  dirs : list string;
  files : list ((string * string) * CsvFile)
}.

Definition path_eqb (a b : string * string) : bool :=
  String.eqb (fst a) (fst b) && String.eqb (snd a) (snd b).

(** [os.makedirs(d, exist_ok=True)] *)
Definition makedirs (d : string) (w : Disk) : Disk :=
  if existsb (String.eqb d) (dirs w) then w
  else {| dirs := d :: dirs w; files := files w |}.

(** [t.to_csv(os.path.join(d, name), index=index)] *)
Definition to_csv (d name : string) (t : Table F) (index : bool) (w : Disk) : Disk :=
  {| dirs := dirs w;
     files := dict_set path_eqb (files w) (d, name)
                {| csv_table := t; csv_index := index |} |}.

(** [sauvegarder]: [os.makedirs(TABLES_DIR, exist_ok=True)], then
    [self.valeurs_propres().to_csv(.., index=False)],
    [self.loadings().to_csv(..)] (the row labels are written) and
    [self.communalites().to_csv(.., index=False)]; an exception of one of
    the three methods stops the sequence there. *)
Definition sauvegarder (TABLES_DIR : string) (w : Disk) (self : AnalyseACP F)
  : outcome unit * AnalyseACP F * Disk :=
  let w0 := makedirs TABLES_DIR w in
  match valeurs_propres self with
  | (Raise e, self1) => (Raise e, self1, w0)
  | (Ok vp, self1) =>
      let w1 := to_csv TABLES_DIR "acp_valeurs_propres.csv"
                       (TValeursPropres vp) false w0 in
      match loadings self1 with
      | (Raise e, self2) => (Raise e, self2, w1)
      | (Ok L, self2) =>
          let w2 := to_csv TABLES_DIR "acp_loadings.csv" (TLoadings L) true w1 in
          match communalites self2 with
          | (Raise e, self3) => (Raise e, self3, w2)
          | (Ok h, self3) =>
              let w3 := to_csv TABLES_DIR "acp_communalites.csv"
                               (TCommunalites h) false w2 in
              (Ok tt, self3, w3)
          end
      end
  end.

End Saving.
Arguments CsvFile F : clear implicits.
Arguments Disk F : clear implicits.

(** An object without a fitted estimator: fresh from [__init__], or left
    by an [ajuster] whose [fit] raised. *)
Definition unfitted {F : Type} `{Num F} (self : AnalyseACP F) : Prop :=
  pca self = None \/ exists nc, pca self = Some (Unfitted nc).

(** A method keeps the estimator: whether it returns or raises, it leaves
    [self.pca], [self.noms_variables] and [self.n_composantes] as they
    were. *)
Definition keeps_estimator {F : Type} `{Num F} {A : Type} (m : M A) : Prop :=
  forall self : AnalyseACP F,
    pca (snd (m self)) = pca self /\
    noms_variables (snd (m self)) = noms_variables self /\
    n_composantes (snd (m self)) = n_composantes self.

(** The number of rows [head(n)] keeps of [N], written out. *)
Definition kept_rows (N : nat) (n : Z) : nat :=
  if (0 <=? n)%Z then Nat.min N (Z.to_nat n) else N - Z.to_nat (- n).

(** ** Further objects to run the methods on *)

Module Binary64More.
Import Binary64.

(** A frame of three observations of A, B, C, and two stand-ins for the
    library's [fit]: one that returns the attributes of [acp_abc], one
    that refuses its input. *)
Definition X_abc : pd.DataFrame float :=
  {| pd.index := pd.RangeIndex 3;
     pd.columns := [LStr "A"; LStr "B"; LStr "C"];
     pd.values := {| np.nrow := 3; np.ncol := 3;
                     np.item := [[1; 0; -1]; [0; 1; -1]; [-1; -1; 2]]%float |} |}.

Definition fit_abc : option Z -> pd.DataFrame float -> outcome (PCAFit float) :=
  fun _ _ => Ok (attrs_with 3 [[0.8; -0.9; 0.1]]%float [1]%float).

Definition fit_refuses : option Z -> pd.DataFrame float -> outcome (PCAFit float) :=
  fun _ _ => Raise ValueError.

Definition no_disk : Disk float := {| dirs := []; files := [] |}.

End Binary64More.

Module ExactMore.
Import Exact ExactPCA ExactExample.
#[local] Open Scope R_scope.

(** The decomposition of [X5] with its first component only. *)
Definition attrs5_first : PCAFit R :=
  {| n_components_ := 1;
     components_ := {| np.nrow := 1; np.ncol := 2; np.item := [[1; 0]] |};
     explained_variance_ := [1];
     explained_variance_ratio_ := [1 / 2] |}.

Definition acp5_first : AnalyseACP R :=
  {| n_composantes := Some 1%Z;
     pca := Some (Fitted (Some 1%Z) attrs5_first);
     noms_variables := Some [LStr "x"; LStr "y"];
     resultats := [] |}.

(** Four observations of one variable scaled to variance 1 with the [n]
    denominator, and its decomposition. *)
Definition X4 : pd.DataFrame R :=
  {| pd.index := pd.RangeIndex 4;
     pd.columns := [LStr "x"];
     pd.values := {| np.nrow := 4; np.ncol := 1;
                     np.item := [[1]; [-1]; [1]; [-1]] |} |}.

Definition attrs4 : PCAFit R :=
  {| n_components_ := 1;
     components_ := {| np.nrow := 1; np.ncol := 1; np.item := [[1]] |};
     explained_variance_ := [4 / 3];
     explained_variance_ratio_ := [1] |}.

Definition acp4 : AnalyseACP R :=
  {| n_composantes := None;
     pca := Some (Fitted None attrs4);
     noms_variables := Some [LStr "x"];
     resultats := [] |}.

Definition U4 (i k : nat) : R := cell X4 i k / 2.
Definition S4 (k : nat) : R := 2.
Definition V4 (k j : nat) : R := delta k j.

End ExactMore.

(** * Properties *)

Section ListFacts.
Context {A B : Type}.

Lemma nth_map_seq (f : nat -> A) (n j : nat) (d : A) :
  j < n -> nth j (map f (seq 0 n)) d = f j.
Proof.
  intros Hj.
  rewrite (nth_indep _ d (f 0)) by (rewrite length_map, length_seq; exact Hj).
  rewrite (map_nth f (seq 0 n) 0 j), seq_nth by exact Hj.
  reflexivity.
Qed.

Lemma nth_map_in (f : A -> B) (l : list A) (j : nat) (d : A) (e : B) :
  j < length l -> nth j (map f l) e = f (nth j l d).
Proof.
  revert j; induction l as [|x l IH]; intros [|j] Hj; simpl in *; try lia.
  - reflexivity.
  - apply IH; lia.
Qed.

Lemma nth_combine (l : list A) (m : list B) (j : nat) (d : A) (e : B) :
  j < length l -> j < length m ->
  nth j (combine l m) (d, e) = (nth j l d, nth j m e).
Proof.
  revert m j; induction l as [|x l IH]; intros [|y m] [|j] Hl Hm;
    simpl in *; try lia.
  - reflexivity.
  - apply IH; lia.
Qed.

Lemma combine_map (f : nat -> A) (g : nat -> B) (l : list nat) :
  combine (map f l) (map g l) = map (fun x => (f x, g x)) l.
Proof. induction l; simpl; congruence. Qed.

Lemma NoDup_map_nth (l : list A) (ps : list nat) (d : A) :
  NoDup l -> NoDup ps -> (forall p, In p ps -> p < length l) ->
  NoDup (map (fun p => nth p l d) ps).
Proof.
  intros Hl. induction ps as [|p ps IH]; intros Hps Hr; simpl; constructor.
  - intros Hin. apply in_map_iff in Hin. destruct Hin as [q [E Hq]].
    inversion Hps as [|? ? Hnot _]; subst. apply Hnot.
    assert (q = p) as ->; [|assumption].
    apply (proj1 (NoDup_nth l d) Hl); auto; apply Hr; now right + left.
  - inversion Hps; subst. apply IH; [assumption|].
    intros q Hq. apply Hr. now right.
Qed.

Lemma FOP_app_cross (R : A -> A -> Prop) (l1 l2 : list A) :
  ForallOrdPairs R (l1 ++ l2) ->
  ForallOrdPairs R l1 /\ forall x y, In x l1 -> In y l2 -> R x y.
Proof.
  induction l1 as [|a l1 IH]; simpl; intros Hfop.
  - split; [constructor | intros x y []].
  - inversion Hfop as [|? ? Hall Hrest]; subst.
    destruct (IH Hrest) as [H1 H2]. rewrite Forall_app in Hall.
    destruct Hall as [Ha1 Ha2]. split; [now constructor|].
    intros x y [<- | Hx] Hy; [|now apply H2].
    rewrite Forall_forall in Ha2. now apply Ha2.
Qed.

Lemma FOP_impl_in (R R' : A -> A -> Prop) (l : list A) :
  (forall x y, In x l -> In y l -> R x y -> R' x y) ->
  ForallOrdPairs R l -> ForallOrdPairs R' l.
Proof.
  induction l as [|a l IH]; intros Himp Hfop; [constructor|].
  inversion Hfop as [|? ? Hall Hrest]; subst. constructor.
  - rewrite Forall_forall in *. intros y Hy.
    apply Himp; [now left | now right | now apply Hall].
  - apply IH; [|assumption]. intros x y Hx Hy. apply Himp; now right.
Qed.

Lemma in_firstn (n : nat) (l : list A) (x : A) : In x (firstn n l) -> In x l.
Proof.
  intros Hin. rewrite <- (firstn_skipn n l). apply in_or_app. now left.
Qed.

End ListFacts.

Lemma firstn_seq_min (n s len : nat) : firstn n (seq s len) = seq s (Nat.min n len).
Proof.
  revert s len; induction n as [|n IH]; intros s [|len]; simpl; try reflexivity.
  now rewrite IH.
Qed.

Section LoadingsFacts.
Context {F : Type} `{Num F}.

Lemma T_get (a : np.array2 F) (j k : nat) :
  j < np.ncol a -> k < np.nrow a -> np.shaped a ->
  np.get (np.T a) j k = np.get a k j.
Proof.
  intros Hj Hk [Hlen _].
  unfold np.get, np.T; simpl.
  rewrite (nth_map_seq _ _ _ _ Hj).
  rewrite (nth_map_in _ _ _ [] c0) by lia.
  reflexivity.
Qed.

Lemma T_shaped (a : np.array2 F) : np.shaped a -> np.shaped (np.T a).
Proof.
  intros [Hlen _]. split; simpl.
  - now rewrite length_map, length_seq.
  - apply Forall_forall. intros r Hr.
    apply in_map_iff in Hr. destruct Hr as [j [<- _]].
    now rewrite length_map.
Qed.

Lemma loadings_run (self : AnalyseACP F) a names N K :
  fitted self a names N K ->
  loadings self =
    (Ok (loadings_frame a names),
     with_resultat self "loadings" (TLoadings (loadings_frame a names))).
Proof.
  intros [[nc Hp] Hn Hlen [Hsh Hr Hc Hv _ _]].
  unfold loadings, bind, fitted_attrs, lift. rewrite Hp.
  unfold np.mul_broadcast. unfold np.sqrt at 1.
  rewrite length_map, Hv. simpl np.ncol. rewrite Hr, Nat.eqb_refl.
  rewrite Hn. unfold pd.mk. cbn [np.nrow np.ncol].
  change (np.nrow (np.T (components_ a))) with (np.ncol (components_ a)).
  rewrite length_map, length_seq, Hlen, Hc, !Nat.eqb_refl. simpl andb.
  unfold set_resultat, update, ret, loadings_frame, with_resultat.
  rewrite Hr, Hc. reflexivity.
Qed.

Lemma loadings_frame_shaped a names N K :
  fitted_shape a N K -> np.shaped (pd.values (loadings_frame a names)).
Proof.
  intros [Hsh Hr Hc Hv _ _].
  destruct (T_shaped _ Hsh) as [HT1 HT2]. simpl in HT1, HT2.
  split; simpl.
  - now rewrite length_map, length_map, length_seq.
  - apply Forall_forall. intros r Hr'.
    apply in_map_iff in Hr'. destruct Hr' as [r0 [<- Hin]].
    rewrite length_map, length_combine.
    rewrite Forall_forall in HT2. rewrite (HT2 _ Hin).
    unfold np.sqrt. rewrite length_map, Hv, Hr. apply Nat.min_id.
Qed.

Lemma loadings_frame_length a names N K :
  fitted_shape a N K ->
  length (np.item (pd.values (loadings_frame a names))) = N.
Proof.
  intros Hs. destruct (loadings_frame_shaped a names N K Hs) as [Hl _].
  rewrite Hl. simpl. apply (fs_ncol _ _ _ Hs).
Qed.

Lemma loadings_frame_get a names N K j k :
  fitted_shape a N K -> j < N -> k < K ->
  np.get (pd.values (loadings_frame a names)) j k =
  fmul (np.get (components_ a) k j) (fsqrt (nth k (explained_variance_ a) c0)).
Proof.
  intros [Hsh Hr Hc Hv _ _] Hj Hk.
  assert (HT := T_shaped _ Hsh). destruct HT as [HT1 HT2].
  pose proof (T_get (components_ a) j k) as Hg.
  unfold np.get in *. unfold loadings_frame. cbn [pd.values np.item].
  assert (Hrow : length (nth j (np.item (np.T (components_ a))) []) = K).
  { rewrite Forall_forall in HT2. rewrite <- Hr. apply HT2.
    apply nth_In. rewrite HT1. simpl. lia. }
  rewrite (nth_map_in _ _ _ [] []) by (rewrite HT1; simpl; lia).
  rewrite (nth_map_in _ _ _ (c0, c0) c0)
    by (rewrite length_combine, Hrow; unfold np.sqrt;
        rewrite length_map, Hv, Nat.min_id; exact Hk).
  rewrite nth_combine by (rewrite ?Hrow; unfold np.sqrt;
                          rewrite ?length_map, ?Hv; exact Hk).
  cbn [fst snd]. unfold np.T in Hg |- *. cbn [np.item] in Hg |- *.
  rewrite Hg by (rewrite ?Hc, ?Hr; assumption).
  unfold np.sqrt. rewrite (nth_map_in _ _ _ c0 c0) by (rewrite Hv; exact Hk).
  reflexivity.
Qed.

(** C1.  On a fitted object with N variables and K components,
    [loadings] returns a frame whose rows are labelled by the N variables,
    whose columns are CP1..CPK, whose array is N by K, and whose entry
    (j, k) is [components_[k][j] * sqrt(explained_variance_[k])]. *)
Theorem loadings_entries (self : AnalyseACP F) a names N K :
  fitted self a names N K ->
  exists df,
    fst (loadings self) = Ok df /\
    pd.index df = names /\
    pd.columns df = map cp_name (seq 0 K) /\
    np.nrow (pd.values df) = N /\
    np.ncol (pd.values df) = K /\
    np.shaped (pd.values df) /\
    forall j k, j < N -> k < K ->
      np.get (pd.values df) j k =
      fmul (np.get (components_ a) k j)
           (fsqrt (nth k (explained_variance_ a) c0)).
Proof.
  intros Hfit. exists (loadings_frame a names).
  rewrite (loadings_run _ _ _ _ _ Hfit).
  destruct Hfit as [_ _ _ Hs].
  pose proof (fs_nrow _ _ _ Hs) as Hr.
  pose proof (fs_ncol _ _ _ Hs) as Hc.
  repeat split; simpl; try congruence.
  - now destruct (loadings_frame_shaped a names N K Hs).
  - now destruct (loadings_frame_shaped a names N K Hs).
  - intros j k Hj Hk. now apply (loadings_frame_get a names N K).
Qed.

End LoadingsFacts.

Section AjusterFacts.
Context {F : Type} `{Num F}.
Variable sk_fit : option Z -> pd.DataFrame F -> outcome (PCAFit F).

(** [ajuster] checks nothing by itself: it succeeds exactly when the
    library's [fit] does, and hands over the library's exception
    otherwise, leaving an estimator without fitted attributes. *)
Lemma ajuster_fit_succeeds (X : pd.DataFrame F) (self : AnalyseACP F) a :
  sk_fit (n_composantes self) X = Ok a ->
  ajuster sk_fit X self =
  (Ok tt, {| n_composantes := n_composantes self;
             pca := Some (Fitted (n_composantes self) a);
             noms_variables := Some (pd.columns X);
             resultats := resultats self |}).
Proof.
  intros Hfit. unfold ajuster, bind, update, fitted_attrs, ret. cbn.
  rewrite Hfit. reflexivity.
Qed.

Lemma ajuster_fit_fails (X : pd.DataFrame F) (self : AnalyseACP F) e :
  sk_fit (n_composantes self) X = Raise e ->
  ajuster sk_fit X self =
  (Raise e, {| n_composantes := n_composantes self;
               pca := Some (Unfitted (n_composantes self));
               noms_variables := Some (pd.columns X);
               resultats := resultats self |}).
Proof.
  intros Hfit. unfold ajuster, bind, update. cbn. rewrite Hfit. reflexivity.
Qed.

Lemma unfitted_loadings (self : AnalyseACP F) nc :
  pca self = Some (Unfitted nc) -> loadings self = (Raise AttributeError, self).
Proof.
  intros Hp. unfold loadings, bind, fitted_attrs. now rewrite Hp.
Qed.

End AjusterFacts.

Section RetentionFacts.
Context {F : Type} `{Num F}.

Lemma fitted_attrs_run (self : AnalyseACP F) a names N K :
  fitted self a names N K -> fitted_attrs self = (Ok a, self).
Proof.
  intros [[nc Hp] _ _ _]. unfold fitted_attrs. now rewrite Hp.
Qed.

(** *** Kaiser *)

Lemma sum_bool_acc (m : list bool) (z : Z) :
  fold_left (fun acc (b : bool) => if b then (acc + 1)%Z else acc) m z =
  (z + Z.of_nat (length (filter (fun b => b) m)))%Z.
Proof.
  revert z; induction m as [|b m IH]; intros z; simpl.
  - lia.
  - rewrite IH. destruct b; simpl length; lia.
Qed.

Lemma sum_bool_count (f : F -> bool) (v : list F) :
  np.sum_bool (map f v) = Z.of_nat (length (filter f v)).
Proof.
  unfold np.sum_bool. rewrite sum_bool_acc. simpl. f_equal.
  induction v as [|x v IH]; simpl; [reflexivity|].
  destruct (f x); simpl; now rewrite IH.
Qed.

(** C5.  The Kaiser rule returns the number of eigenvalues [x] with
    [1 < x]; an eigenvalue equal to 1.0 is not among the counted ones
    (the comparison is strict), and [self] is left as it was. *)
Theorem critere_kaiser_count (self : AnalyseACP F) a names N K :
  fitted self a names N K ->
  flt c1 c1 = false ->
  let counted := filter (fun x => flt c1 x) (explained_variance_ a) in
  critere_kaiser self = (Ok (Z.of_nat (length counted)), self) /\
  ~ In c1 counted.
Proof.
  intros Hfit Hirr counted. split.
  - unfold critere_kaiser, bind. rewrite (fitted_attrs_run _ _ _ _ _ Hfit).
    unfold ret, np.gt. now rewrite sum_bool_count.
  - unfold counted. rewrite filter_In. intros [_ Hlt]. congruence.
Qed.

(** *** Cumulative-variance threshold *)

Lemma cumsum_from_length (acc : F) (v : list F) :
  length (np.cumsum_from acc v) = length v.
Proof. revert acc; induction v; intros; simpl; auto. Qed.

Lemma cumsum_length (v : list F) : length (np.cumsum v) = length v.
Proof. destruct v; simpl; [|rewrite cumsum_from_length]; reflexivity. Qed.

Lemma cumsum_from_nth (acc : F) (v : list F) (i : nat) :
  i < length v ->
  nth i (np.cumsum_from acc v) c0 = fold_left fadd (firstn (S i) v) acc.
Proof.
  revert acc i; induction v as [|x v IH]; intros acc [|i] Hi; simpl in *; try lia.
  - reflexivity.
  - apply IH; lia.
Qed.

Lemma cumsum_nth (v : list F) (m : nat) :
  1 <= m <= length v -> nth (m - 1) (np.cumsum v) c0 = cumulative v m.
Proof.
  intros Hm. unfold cumulative.
  destruct v as [|x v]; simpl in *; [lia|].
  destruct m as [|[|m]]; simpl; try lia; try reflexivity.
  rewrite cumsum_from_nth by lia. reflexivity.
Qed.

Lemma argmax_from_true (besti i : nat) (m : list bool) :
  np.argmax_from true besti i m = besti.
Proof. revert i; induction m; intros; simpl; auto. Qed.

(** From a [False] start, [argmax] stops at the first [True] and falls
    back on the starting position when there is none. *)
Lemma argmax_from_false (besti i : nat) (m : list bool) :
  (forall j, j < length m -> nth j m false = false) /\
    np.argmax_from false besti i m = besti
  \/
  exists j, j < length m /\ nth j m false = true /\
    (forall j', j' < j -> nth j' m false = false) /\
    np.argmax_from false besti i m = i + j.
Proof.
  revert besti i; induction m as [|b m IH]; intros besti i; simpl.
  - left; split; [intros; lia | reflexivity].
  - destruct b; simpl.
    + right. exists 0. rewrite argmax_from_true.
      repeat split; intros; lia.
    + destruct (IH besti (S i)) as [[Hall ->] | [j [Hj [Ht [Hmin ->]]]]].
      * left; split; [|reflexivity]. intros [|j] Hj; [reflexivity|].
        apply Hall; lia.
      * right. exists (S j). repeat split; try lia; try assumption.
        intros [|j'] Hj'; [reflexivity|]. apply Hmin; lia.
Qed.

Lemma argmax_spec (m : list bool) :
  m <> [] ->
  exists k, np.argmax m = Ok k /\ k < length m /\
    ((forall j, j < length m -> nth j m false = false) /\ k = 0
     \/ nth k m false = true /\ forall j, j < k -> nth j m false = false).
Proof.
  destruct m as [|b m]; [congruence|]. intros _. simpl np.argmax.
  destruct b.
  - exists 0. rewrite argmax_from_true. repeat split; simpl; try lia.
    right; split; [reflexivity | intros; lia].
  - destruct (argmax_from_false 0 1 m) as [[Hall ->] | [j [Hj [Ht [Hmin ->]]]]].
    + exists 0. repeat split; simpl; try lia. left; split; [|reflexivity].
      intros [|j] Hj; [reflexivity|]. apply Hall; lia.
    + exists (1 + j). repeat split; simpl; try lia. right; split; [assumption|].
      intros [|j'] Hj'; [reflexivity|]. apply Hmin; lia.
Qed.

Lemma seuil_variance_run (self : AnalyseACP F) a names N K (seuil : F) k :
  fitted self a names N K ->
  np.argmax (np.ge (np.cumsum (explained_variance_ratio_ a)) seuil) = Ok k ->
  k < K ->
  seuil_variance seuil self = (Ok (Z.of_nat (k + 1)), self).
Proof.
  intros Hfit Hk HkK. unfold seuil_variance, bind.
  rewrite (fitted_attrs_run _ _ _ _ _ Hfit). unfold lift. rewrite Hk.
  replace (Z.to_nat (Z.of_nat k + 1 - 1)) with k by lia.
  unfold np.getitem.
  destruct (nth_error (np.cumsum (explained_variance_ratio_ a)) k) eqn:E.
  - unfold ret. do 2 f_equal. lia.
  - apply nth_error_None in E. rewrite cumsum_length in E.
    destruct Hfit as [_ _ _ Hs]. rewrite (fs_ratio _ _ _ Hs) in E. lia.
Qed.

(** The rule on a reachable threshold: the smallest count whose
    cumulative proportion reaches it. *)
Lemma seuil_variance_reachable (self : AnalyseACP F) a names N K (seuil : F) :
  fitted self a names N K ->
  (exists m, 1 <= m <= K /\
     fle seuil (cumulative (explained_variance_ratio_ a) m) = true) ->
  exists n,
    seuil_variance seuil self = (Ok (Z.of_nat n), self) /\
    1 <= n <= K /\
    fle seuil (cumulative (explained_variance_ratio_ a) n) = true /\
    forall m, 1 <= m < n ->
      fle seuil (cumulative (explained_variance_ratio_ a) m) = false.
Proof.
  intros Hfit [m0 [Hm0 Hreach]].
  pose proof (fs_ratio _ _ _ (fit_shape _ _ _ _ _ Hfit)) as Hlen.
  set (ratio := explained_variance_ratio_ a) in *.
  set (mask := np.ge (np.cumsum ratio) seuil).
  assert (Hmlen : length mask = K)
    by (unfold mask, np.ge; now rewrite length_map, cumsum_length).
  assert (Hnth : forall j, j < K ->
            nth j mask false = fle seuil (cumulative ratio (j + 1))).
  { intros j Hj. unfold mask, np.ge.
    rewrite (nth_map_in _ _ _ c0 false) by (rewrite cumsum_length; lia).
    rewrite <- (cumsum_nth ratio (j + 1)) by lia.
    now replace (j + 1 - 1) with j by lia. }
  destruct (argmax_spec mask) as [k [Hk [HkK Hcase]]].
  { intros E. rewrite E in Hmlen. simpl in Hmlen. lia. }
  rewrite Hmlen in HkK.
  exists (k + 1). split; [now apply (seuil_variance_run self a names N K)|].
  destruct Hcase as [[Hall _] | [Ht Hmin]].
  - exfalso. specialize (Hall (m0 - 1)). rewrite Hmlen in Hall.
    rewrite Hnth in Hall by lia.
    replace (m0 - 1 + 1) with m0 in Hall by lia.
    rewrite Hreach in Hall. discriminate Hall. lia.
  - split; [lia|]. split.
    + rewrite <- Hnth by lia. exact Ht.
    + intros m Hm. specialize (Hmin (m - 1)).
      rewrite Hnth in Hmin by lia.
      replace (m - 1 + 1) with m in Hmin by lia. apply Hmin; lia.
Qed.

(** The rule on a threshold no cumulative proportion reaches: no
    exception, the answer is 1. *)
Lemma seuil_variance_unreachable (self : AnalyseACP F) a names N K (seuil : F) :
  fitted self a names N K ->
  1 <= K ->
  (forall m, 1 <= m <= K ->
     fle seuil (cumulative (explained_variance_ratio_ a) m) = false) ->
  seuil_variance seuil self = (Ok 1%Z, self).
Proof.
  intros Hfit HK Hnone.
  pose proof (fs_ratio _ _ _ (fit_shape _ _ _ _ _ Hfit)) as Hlen.
  set (ratio := explained_variance_ratio_ a) in *.
  set (mask := np.ge (np.cumsum ratio) seuil).
  assert (Hmlen : length mask = K)
    by (unfold mask, np.ge; now rewrite length_map, cumsum_length).
  assert (Hnth : forall j, j < K ->
            nth j mask false = fle seuil (cumulative ratio (j + 1))).
  { intros j Hj. unfold mask, np.ge.
    rewrite (nth_map_in _ _ _ c0 false) by (rewrite cumsum_length; lia).
    rewrite <- (cumsum_nth ratio (j + 1)) by lia.
    now replace (j + 1 - 1) with j by lia. }
  destruct (argmax_spec mask) as [k [Hk [HkK Hcase]]].
  { intros E. rewrite E in Hmlen. simpl in Hmlen. lia. }
  rewrite Hmlen in HkK.
  assert (k = 0) as ->.
  { destruct Hcase as [[_ ?] | [Ht _]]; [assumption|].
    rewrite Hnth, Hnone in Ht by lia. discriminate Ht. }
  now rewrite (seuil_variance_run self a names N K seuil 0 Hfit Hk HK).
Qed.

End RetentionFacts.

Section Binary64Facts.
Import Binary64.

Lemma acp_with_fitted names comps ev :
  length comps = length ev ->
  Forall (fun r => length r = length names) comps ->
  fitted (acp_with names comps ev) (attrs_with (length names) comps ev)
         (map LStr names) (length names) (length ev).
Proof.
  intros Hlen Hrows. split.
  - exists None. reflexivity.
  - reflexivity.
  - apply length_map.
  - split; simpl; try reflexivity; try assumption.
    + split; simpl; [reflexivity | assumption].
    + unfold ratio_of. apply length_map.
Qed.

Lemma acp3_fitted ev :
  length ev = 3 ->
  fitted (acp_with ["A"; "B"; "C"]%string basis3 ev)
         (attrs_with 3 basis3 ev) [LStr "A"; LStr "B"; LStr "C"] 3 3.
Proof.
  intros Hev.
  pose proof (acp_with_fitted ["A"; "B"; "C"]%string basis3 ev) as Hf.
  rewrite Hev in Hf. apply Hf; [reflexivity|].
  repeat constructor.
Qed.

(** C3, as the program computes it.  On a fitted object, for a threshold
    that some cumulative proportion reaches, [seuil_variance] returns the
    smallest count whose cumulative proportion (the running binary64 sum
    of [explained_variance_ratio_]) is greater than or equal to the
    threshold.  The comparison is inclusive on the computed values: with
    eigenvalues 2.25, 0.5, 0.25 the rule gives 1 at 0.75 and 2 at 0.76;
    with eigenvalues 2.4, 0.4, 0.2 the first computed proportion is
    0.7999999999999999, below the binary64 value of 0.80, and the rule
    gives 2 at 0.80 as well as at 0.81. *)
Theorem seuil_variance_smallest :
  (forall (self : AnalyseACP float) a names N K (seuil : float),
     fitted self a names N K ->
     (exists m, 1 <= m <= K /\
        PrimFloat.leb seuil (cumulative (explained_variance_ratio_ a) m) = true) ->
     exists n,
       seuil_variance seuil self = (Ok (Z.of_nat n), self) /\
       1 <= n <= K /\
       PrimFloat.leb seuil (cumulative (explained_variance_ratio_ a) n) = true /\
       forall m, 1 <= m < n ->
         PrimFloat.leb seuil (cumulative (explained_variance_ratio_ a) m) = false) /\
  fst (seuil_variance 0.75%float acp_225_05_025) = Ok 1%Z /\
  fst (seuil_variance 0.76%float acp_225_05_025) = Ok 2%Z /\
  fst (seuil_variance 0.80%float acp_24_04_02) = Ok 2%Z /\
  fst (seuil_variance 0.81%float acp_24_04_02) = Ok 2%Z.
Proof.
  split.
  - intros self a names N K seuil Hfit Hreach.
    exact (seuil_variance_reachable self a names N K seuil Hfit Hreach).
  - repeat split; vm_compute; reflexivity.
Qed.

End Binary64Facts.

Section LabelFacts.

Lemma label_eqb_eq (a b : label) : label_eqb a b = true <-> a = b.
Proof.
  destruct a as [s|x|], b as [t|y|]; simpl; split; intros E;
    try discriminate; try congruence.
  - apply String.eqb_eq in E. now subst.
  - injection E as ->. apply String.eqb_refl.
  - apply Z.eqb_eq in E. now subst.
  - injection E as ->. apply Z.eqb_refl.
Qed.

Lemma label_eqb_refl (a : label) : label_eqb a a = true.
Proof. now apply label_eqb_eq. Qed.

Lemma label_eqb_neq (a b : label) : a <> b -> label_eqb a b = false.
Proof.
  intros Hne. destruct (label_eqb a b) eqn:E; [|reflexivity].
  apply label_eqb_eq in E. contradiction.
Qed.

Lemma str_of_nat_inj (n m : nat) : str_of_nat n = str_of_nat m -> n = m.
Proof.
  unfold str_of_nat. intros E.
  apply (f_equal DecimalString.NilEmpty.uint_of_string) in E.
  rewrite !DecimalString.NilEmpty.usu in E. injection E as E.
  apply (f_equal Nat.of_uint) in E.
  now rewrite !DecimalNat.Unsigned.of_to in E.
Qed.

Lemma cp_name_inj (i j : nat) : cp_name i = cp_name j -> i = j.
Proof.
  unfold cp_name. simpl. intros E. injection E as E.
  apply str_of_nat_inj in E. lia.
Qed.

Lemma cp_names_NoDup (s n : nat) : NoDup (map cp_name (seq s n)).
Proof.
  revert s; induction n as [|n IH]; intros s; simpl; constructor.
  - intros Hin. apply in_map_iff in Hin. destruct Hin as [j [E Hj]].
    apply cp_name_inj in E. apply in_seq in Hj. lia.
  - apply IH.
Qed.

End LabelFacts.

Section DictFacts.
Context {V : Type}.

Lemma dict_set_new (d : list (label * V)) (k : label) (v : V) :
  ~ In k (dict_keys d) -> dict_set label_eqb d k v = d ++ [(k, v)].
Proof.
  induction d as [|[k' v'] d IH]; simpl; intros Hnew; [reflexivity|].
  rewrite label_eqb_neq by (intros ->; apply Hnew; now left).
  rewrite IH by (intros Hin; apply Hnew; now right). reflexivity.
Qed.

Lemma dict_get_absent (d : list (label * V)) (k : label) :
  ~ In k (dict_keys d) -> dict_get label_eqb d k = None.
Proof.
  induction d as [|[k' v'] d IH]; simpl; intros Hnew; [reflexivity|].
  rewrite label_eqb_neq by (intros ->; apply Hnew; now left).
  apply IH. intros Hin; apply Hnew; now right.
Qed.

Lemma dict_get_nth (d : list (label * V)) (i : nat) (dk : label) (dv : V) :
  NoDup (dict_keys d) -> i < length d ->
  dict_get label_eqb d (fst (nth i d (dk, dv))) = Some (snd (nth i d (dk, dv))).
Proof.
  revert i; induction d as [|[k' v'] d IH]; intros [|i] Hnd Hi; simpl in *;
    try lia.
  - now rewrite label_eqb_refl.
  - inversion Hnd as [|? ? Hnot Hnd']; subst.
    rewrite label_eqb_neq.
    + apply IH; [assumption | lia].
    + intros ->. apply Hnot. unfold dict_keys. apply in_map. apply nth_In. lia.
Qed.

Lemma dict_of_acc (l d : list (label * V)) :
  NoDup (dict_keys (d ++ l)) ->
  fold_left (fun d kv => dict_set label_eqb d (fst kv) (snd kv)) l d = d ++ l.
Proof.
  revert d; induction l as [|[k v] l IH]; intros d Hnd; simpl.
  - now rewrite app_nil_r.
  - rewrite dict_set_new.
    + rewrite IH; rewrite <- app_assoc; [reflexivity | exact Hnd].
    + unfold dict_keys in *. rewrite map_app in Hnd. simpl in Hnd.
      apply NoDup_remove_2 in Hnd. intros Hin. apply Hnd.
      apply in_or_app. now left.
Qed.

(** On distinct keys, [dict(pairs)] keeps the pairs as they come. *)
Lemma dict_of_NoDup (l : list (label * V)) :
  NoDup (dict_keys l) -> dict_of label_eqb l = l.
Proof. intros Hnd. unfold dict_of. now rewrite dict_of_acc. Qed.

End DictFacts.

Section IndexFacts.

Lemma positions_from_absent (k : nat) (l : list label) (x : label) :
  ~ In x l -> pd.positions_from k l x = [].
Proof.
  revert k; induction l as [|y l IH]; intros k Hnot; simpl; [reflexivity|].
  rewrite label_eqb_neq by (intros ->; apply Hnot; now left).
  apply IH. intros Hin; apply Hnot; now right.
Qed.

Lemma positions_from_present (k : nat) (l : list label) (x : label) :
  In x l -> pd.positions_from k l x <> [].
Proof.
  revert k; induction l as [|y l IH]; intros k Hin; simpl; [contradiction|].
  destruct (label_eqb y x) eqn:E; [discriminate|].
  destruct Hin as [-> | Hin]; [now rewrite label_eqb_refl in E|].
  now apply IH.
Qed.

(** In an index without repetition a label stands at one position. *)
Lemma positions_from_NoDup (k : nat) (l : list label) (p : nat) (d : label) :
  NoDup l -> p < length l ->
  pd.positions_from k l (nth p l d) = [k + p].
Proof.
  revert k p; induction l as [|y l IH]; intros k [|p] Hnd Hp; simpl in *;
    try lia; inversion Hnd as [|? ? Hnot Hnd']; subst.
  - rewrite label_eqb_refl, positions_from_absent by assumption.
    now rewrite Nat.add_0_r.
  - rewrite label_eqb_neq.
    + rewrite IH by (assumption || lia). f_equal. lia.
    + intros ->. apply Hnot. apply nth_In. lia.
Qed.

Lemma positions_cp (K i : nat) :
  i < K -> pd.positions (map cp_name (seq 0 K)) (cp_name i) = [i].
Proof.
  intros Hi. unfold pd.positions.
  rewrite <- (nth_map_seq cp_name K i (LInt 0) Hi) at 1.
  rewrite positions_from_NoDup.
  - reflexivity.
  - apply cp_names_NoDup.
  - now rewrite length_map, length_seq.
Qed.

Lemma rows_of_ok (idx labels : list label) :
  (forall x, In x labels -> In x idx) ->
  exists ps, pd.rows_of idx labels = Ok ps.
Proof.
  induction labels as [|x labels IH]; intros Hin; simpl.
  - now exists [].
  - destruct IH as [rest Hrest]; [intros; apply Hin; now right|].
    unfold pd.positions.
    pose proof (positions_from_present 0 idx x (Hin x (or_introl eq_refl))) as Hne.
    destruct (pd.positions_from 0 idx x) as [|p ps] eqn:E; [congruence|].
    rewrite Hrest. simpl. eauto.
Qed.

Lemma rows_of_NoDup (idx : list label) (ps : list nat) (d : label) :
  NoDup idx -> (forall p, In p ps -> p < length idx) ->
  pd.rows_of idx (map (fun p => nth p idx d) ps) = Ok ps.
Proof.
  intros Hnd. induction ps as [|p ps IH]; intros Hin; simpl; [reflexivity|].
  unfold pd.positions.
  rewrite positions_from_NoDup by (auto; apply Hin; now left).
  rewrite IH by (intros; apply Hin; now right). reflexivity.
Qed.

End IndexFacts.

Section InterpreterFacts.
Context {F : Type} `{Num F}.
Variable argsort_desc : list F -> list nat.

Variables (a : PCAFit F) (names : list label) (N K : nat).
Hypothesis Hshape : fitted_shape a N K.
Hypothesis Hnames : length names = N.

Lemma column_at_length (i : nat) : length (pd.column_at (loadings_frame a names) i) = N.
Proof.
  unfold pd.column_at. rewrite length_map.
  destruct (loadings_frame_shaped a names N K Hshape) as [Hl _].
  rewrite Hl. simpl. apply (fs_ncol _ _ _ Hshape).
Qed.

Lemma column_at_get (i p : nat) :
  p < N ->
  nth p (pd.column_at (loadings_frame a names) i) c0 =
  np.get (pd.values (loadings_frame a names)) p i.
Proof.
  intros Hp. unfold pd.column_at, np.get.
  apply (nth_map_in (fun r => nth i r c0)).
  destruct (loadings_frame_shaped a names N K Hshape) as [Hl _].
  rewrite Hl. simpl. now rewrite (fs_ncol _ _ _ Hshape).
Qed.

Lemma getcol_cp (i : nat) :
  i < K ->
  pd.getcol (loadings_frame a names) (cp_name i) =
  Ok {| pd.s_index := names; pd.s_values := pd.column_at (loadings_frame a names) i |}.
Proof.
  intros Hi. unfold pd.getcol. simpl pd.columns.
  rewrite (fs_nrow _ _ _ Hshape), (positions_cp K i Hi). reflexivity.
Qed.

Lemma order_length (i : nat) :
  valid_order argsort_desc ->
  length (argsort_desc (map fabs (pd.column_at (loadings_frame a names) i))) = N.
Proof.
  intros Hv. rewrite (Permutation_length (Hv _)).
  now rewrite length_seq, length_map, column_at_length.
Qed.

Lemma ranking_range (i : nat) (n_top : Z) (p : nat) :
  valid_order argsort_desc -> In p (ranking argsort_desc a names N i n_top) -> p < N.
Proof.
  intros Hv Hin. unfold ranking in Hin. apply in_firstn in Hin.
  apply (Permutation_in _ (Hv _)) in Hin. apply in_seq in Hin.
  rewrite length_map, column_at_length in Hin. lia.
Qed.

Lemma ranking_NoDup (i : nat) (n_top : Z) :
  valid_order argsort_desc -> NoDup (ranking argsort_desc a names N i n_top).
Proof.
  intros Hv. unfold ranking.
  assert (Hnd : NoDup (argsort_desc (map fabs (pd.column_at (loadings_frame a names) i)))).
  { apply (Permutation_NoDup (Permutation_sym (Hv _))). apply seq_NoDup. }
  rewrite <- (firstn_skipn (pd.head_count N n_top)) in Hnd.
  now apply NoDup_app_remove_r in Hnd.
Qed.

Lemma top_index (i : nat) (n_top : Z) :
  valid_order argsort_desc ->
  pd.s_index
    (pd.head (pd.sort_values_desc argsort_desc
                (pd.abs {| pd.s_index := names;
                           pd.s_values := pd.column_at (loadings_frame a names) i |})) n_top) =
  map (fun p => nth p names (LInt 0)) (ranking argsort_desc a names N i n_top).
Proof.
  intros Hv. unfold pd.head, pd.sort_values_desc, pd.take, pd.abs, ranking.
  simpl. rewrite length_map, (order_length i Hv). now rewrite firstn_map.
Qed.

Lemma ratio_getitem (i : nat) :
  i < K ->
  np.getitem (explained_variance_ratio_ a) i =
  Ok (nth i (explained_variance_ratio_ a) c0).
Proof.
  intros Hi. unfold np.getitem.
  rewrite (nth_error_nth' _ c0) by (rewrite (fs_ratio _ _ _ Hshape); exact Hi).
  reflexivity.
Qed.

Lemma interpreter_entry_ok (i : nat) (n_top : Z) :
  valid_order argsort_desc -> i < K ->
  exists e, interpreter_entry argsort_desc a (loadings_frame a names) n_top i (cp_name i) = Ok e.
Proof.
  intros Hv Hi. unfold interpreter_entry, pd.loc.
  rewrite (getcol_cp i Hi). cbn [obind]. rewrite (top_index i n_top Hv).
  destruct (rows_of_ok (pd.index (loadings_frame a names))
              (map (fun p => nth p names (LInt 0)) (ranking argsort_desc a names N i n_top)))
    as [ps Hps].
  { intros x Hx. apply in_map_iff in Hx. destruct Hx as [p [<- Hp]].
    simpl. apply nth_In. rewrite Hnames. now apply (ranking_range i n_top). }
  rewrite Hps. cbn [obind]. rewrite (ratio_getitem i Hi). cbn [obind]. eauto.
Qed.

(** With distinct variable names the entry lists, in ranking order, each
    ranked variable with its signed loading. *)
Lemma interpreter_entry_NoDup (i : nat) (n_top : Z) :
  valid_order argsort_desc -> NoDup names -> i < K ->
  interpreter_entry argsort_desc a (loadings_frame a names) n_top i (cp_name i) =
  Ok {| variables_dominantes :=
          map (fun p => (nth p names (LInt 0), np.get (pd.values (loadings_frame a names)) p i))
              (ranking argsort_desc a names N i n_top);
        variance_expliquee :=
          fmul (nth i (explained_variance_ratio_ a) c0) c100 |}.
Proof.
  intros Hv Hnd Hi. unfold interpreter_entry, pd.loc.
  rewrite (getcol_cp i Hi). cbn [obind]. rewrite (top_index i n_top Hv).
  change (pd.index (loadings_frame a names)) with names.
  rewrite rows_of_NoDup
    by (auto; intros p Hp; rewrite Hnames; now apply (ranking_range i n_top)).
  cbn [obind]. rewrite (ratio_getitem i Hi). cbn [obind].
  do 2 f_equal. unfold pd.to_dict, pd.take. cbn [pd.s_index pd.s_values].
  rewrite combine_map.
  rewrite (map_ext_in _
             (fun p => (nth p names (LInt 0), np.get (pd.values (loadings_frame a names)) p i)))
    by (intros p Hp; rewrite column_at_get;
        [reflexivity | now apply (ranking_range i n_top)]).
  apply dict_of_NoDup. unfold dict_keys. rewrite map_map. simpl.
  apply NoDup_map_nth; [assumption | now apply ranking_NoDup |].
  intros p Hp. rewrite Hnames. now apply (ranking_range i n_top).
Qed.

(** The loop adds, in turn, one entry per column label. *)
Lemma interpreter_loop_run (n_top : Z) (E : nat -> Interpretation F) (n : nat) :
  forall (i : nat) (interp : list (label * Interpretation F)),
    (forall j, i <= j < i + n ->
       interpreter_entry argsort_desc a (loadings_frame a names) n_top j (cp_name j) = Ok (E j)) ->
    (forall k, In k (dict_keys interp) -> exists j, j < i /\ k = cp_name j) ->
    interpreter_loop argsort_desc a (loadings_frame a names) n_top interp i
      (map cp_name (seq i n)) =
    Ok (interp ++ map (fun j => (cp_name j, E j)) (seq i n)).
Proof.
  induction n as [|n IH]; intros i interp Hent Hkeys; simpl.
  - now rewrite app_nil_r.
  - unfold interpreter_step. rewrite Hent by lia. cbn [obind].
    rewrite dict_set_new.
    + rewrite IH.
      * now rewrite <- app_assoc.
      * intros j Hj. apply Hent. lia.
      * intros k Hk. unfold dict_keys in Hk. rewrite map_app in Hk.
        apply in_app_or in Hk. destruct Hk as [Hk | [<- | []]].
        -- destruct (Hkeys k Hk) as [j [Hj ->]]. exists j. split; [lia | reflexivity].
        -- exists i. split; [lia | reflexivity].
    + intros Hin. destruct (Hkeys _ Hin) as [j [Hj E']].
      apply cp_name_inj in E'. lia.
Qed.

End InterpreterFacts.

Section InterpreterRuns.
Context {F : Type} `{Num F}.
Variable argsort_desc : list F -> list nat.

Lemma interpreter_run (self : AnalyseACP F) a names N K (n_top : Z) :
  fitted self a names N K ->
  interpreter argsort_desc n_top self =
  (interpreter_loop argsort_desc a (loadings_frame a names) n_top [] 0
     (map cp_name (seq 0 (Nat.min 5 K))),
   with_resultat self "loadings" (TLoadings (loadings_frame a names))).
Proof.
  intros Hfit. unfold interpreter, bind.
  rewrite (loadings_run _ _ _ _ _ Hfit).
  destruct Hfit as [[nc Hp] Hn Hlen Hs].
  unfold fitted_attrs, with_resultat. cbn [pca]. rewrite Hp. unfold lift.
  simpl pd.columns. rewrite (fs_nrow _ _ _ Hs).
  now rewrite firstn_map, firstn_seq_min.
Qed.

(** The value of [interpreter]: one entry per component among the first
    five, each the result of [interpreter_entry]. *)
Lemma interpreter_value (self : AnalyseACP F) a names N K (n_top : Z) :
  fitted self a names N K ->
  valid_order argsort_desc ->
  exists E : nat -> Interpretation F,
    fst (interpreter argsort_desc n_top self) =
      Ok (map (fun j => (cp_name j, E j)) (seq 0 (Nat.min 5 K))) /\
    forall j, j < Nat.min 5 K ->
      interpreter_entry argsort_desc a (loadings_frame a names) n_top j (cp_name j)
      = Ok (E j).
Proof.
  intros Hfit Hv.
  pose proof (fit_shape _ _ _ _ _ Hfit) as Hs.
  pose proof (fit_names _ _ _ _ _ Hfit) as Hn.
  set (E := fun j =>
              match interpreter_entry argsort_desc a (loadings_frame a names)
                      n_top j (cp_name j) with
              | Ok e => e
              | Raise _ => {| variables_dominantes := []; variance_expliquee := c0 |}
              end).
  assert (HE : forall j, j < Nat.min 5 K ->
            interpreter_entry argsort_desc a (loadings_frame a names) n_top j
              (cp_name j) = Ok (E j)).
  { intros j Hj. unfold E.
    destruct (interpreter_entry_ok argsort_desc a names N K Hs Hn j n_top Hv)
      as [e He]; [lia|].
    now rewrite He. }
  exists E. split; [|exact HE].
  rewrite (interpreter_run _ _ _ _ _ n_top Hfit). cbn [fst].
  rewrite (interpreter_loop_run argsort_desc a names N Hn n_top E).
  - reflexivity.
  - intros j Hj. apply HE. lia.
  - intros k [].
Qed.

(** C10.  Whatever [n_top] and however many components were kept,
    [interpreter] returns entries for the first min(K, 5) components, in
    that order, and none for any component from the sixth on. *)
Theorem interpreter_first_five (self : AnalyseACP F) a names N K (n_top : Z) :
  fitted self a names N K ->
  valid_order argsort_desc ->
  exists interp,
    fst (interpreter argsort_desc n_top self) = Ok interp /\
    dict_keys interp = map cp_name (seq 0 (Nat.min K 5)) /\
    forall k, 5 <= k -> dict_get label_eqb interp (cp_name k) = None.
Proof.
  intros Hfit Hv.
  destruct (interpreter_value self a names N K n_top Hfit Hv) as [E [Hrun _]].
  eexists. split; [exact Hrun|].
  assert (Hkeys : dict_keys (map (fun j => (cp_name j, E j)) (seq 0 (Nat.min 5 K)))
                  = map cp_name (seq 0 (Nat.min K 5))).
  { unfold dict_keys. rewrite map_map. simpl. now rewrite Nat.min_comm. }
  split; [exact Hkeys|].
  intros k Hk. apply dict_get_absent. rewrite Hkeys.
  intros Hin. apply in_map_iff in Hin. destruct Hin as [j [Ej Hj]].
  apply cp_name_inj in Ej. apply in_seq in Hj. lia.
Qed.

Lemma abs_column a names N K (i : nat) :
  fitted_shape a N K -> i < K ->
  map fabs (pd.column_at (loadings_frame a names) i) = abs_loadings a N i.
Proof.
  intros Hs Hi. unfold abs_loadings.
  apply (nth_ext _ _ c0 c0).
  - rewrite !length_map, length_seq.
    exact (column_at_length a names N K Hs i).
  - intros p Hp. rewrite length_map in Hp.
    rewrite (column_at_length a names N K Hs i) in Hp.
    rewrite (nth_map_in fabs _ _ c0 c0)
      by now rewrite (column_at_length a names N K Hs i).
    rewrite (nth_map_seq _ _ _ _ Hp).
    rewrite (column_at_get a names N K Hs i p Hp).
    now rewrite (loadings_frame_get a names N K p i Hs Hp Hi).
Qed.

End InterpreterRuns.

Section DominantVariables.
Context {F : Type} `{Num F}.
Variable argsort_desc : list F -> list nat.

(** The dominant variables of component [i < min(K, 5)], for distinct
    variable names and [0 <= n_top <= N]: [n_top] distinct variables,
    each with its signed loading, no listed variable followed by one of
    strictly larger absolute loading, and no variable left out of
    strictly larger absolute loading than a listed one. *)
Lemma interpreter_ranking (self : AnalyseACP F) a names N K (i : nat) (n_top : Z) :
  fitted self a names N K ->
  NoDup names ->
  valid_order argsort_desc ->
  sorted_desc (abs_loadings a N i) (argsort_desc (abs_loadings a N i)) ->
  i < Nat.min K 5 ->
  (0 <= n_top <= Z.of_nat N)%Z ->
  exists interp e ps,
    fst (interpreter argsort_desc n_top self) = Ok interp /\
    dict_get label_eqb interp (cp_name i) = Some e /\
    variables_dominantes e =
      map (fun p => (nth p names (LInt 0), loading a i p)) ps /\
    length ps = Z.to_nat n_top /\
    NoDup ps /\
    (forall p, In p ps -> p < N) /\
    ForallOrdPairs
      (fun p q => flt (fabs (loading a i p)) (fabs (loading a i q)) = false) ps /\
    (forall p q, In p ps -> q < N -> ~ In q ps ->
       flt (fabs (loading a i p)) (fabs (loading a i q)) = false).
Proof.
  intros Hfit Hnd Hv Hsorted Hi Htop.
  pose proof (fit_shape _ _ _ _ _ Hfit) as Hs.
  pose proof (fit_names _ _ _ _ _ Hfit) as Hn.
  destruct (interpreter_value argsort_desc self a names N K n_top Hfit Hv)
    as [E [Hrun HE]].
  assert (HiK : i < K) by lia.
  pose proof (interpreter_entry_NoDup argsort_desc a names N K Hs Hn i n_top
                Hv Hnd HiK) as Hentry.
  rewrite HE in Hentry by lia.
  assert (Hentry' := f_equal (fun o => match o with Ok e => e | Raise _ => E i end) Hentry).
  cbv beta iota in Hentry'. clear Hentry. rename Hentry' into Hentry.
  set (order := argsort_desc (abs_loadings a N i)) in *.
  assert (Hrank : ranking argsort_desc a names N i n_top
                  = firstn (Z.to_nat n_top) order).
  { unfold ranking. rewrite (abs_column a names N K i Hs HiK).
    unfold pd.head_count. destruct (Z.leb_spec 0 n_top); [reflexivity | lia]. }
  assert (Hlen : length order = N).
  { unfold order. rewrite (Permutation_length (Hv _)).
    unfold abs_loadings. now rewrite length_seq, length_map, length_seq. }
  assert (Hrange : forall p, In p order -> p < N).
  { intros p Hp. apply (Permutation_in _ (Hv _)) in Hp. apply in_seq in Hp.
    unfold abs_loadings in Hp. rewrite length_map, length_seq in Hp. lia. }
  assert (Habs : forall p, p < N ->
            nth p (abs_loadings a N i) c0 = fabs (loading a i p)).
  { intros p Hp. unfold abs_loadings. now rewrite (nth_map_seq _ _ _ _ Hp). }
  set (ps := firstn (Z.to_nat n_top) order) in *.
  assert (Hsplit : order = ps ++ skipn (Z.to_nat n_top) order)
    by (unfold ps; now rewrite firstn_skipn).
  assert (Hin_ps : forall p, In p ps -> In p order)
    by (intros p Hp; unfold ps in Hp; now apply in_firstn in Hp).
  unfold sorted_desc in Hsorted. rewrite Hsplit in Hsorted.
  apply FOP_app_cross in Hsorted. destruct Hsorted as [Hfop Hcross].
  exists (map (fun j => (cp_name j, E j)) (seq 0 (Nat.min 5 K))), (E i), ps.
  split; [exact Hrun|]. split; [|split; [|split; [|split; [|split; [|split]]]]].
  - pose proof (dict_get_nth
                  (map (fun j => (cp_name j, E j)) (seq 0 (Nat.min 5 K)))
                  i (LInt 0) (E i)) as Hget.
    rewrite (nth_map_in _ _ _ 0) in Hget by (rewrite length_seq; lia).
    rewrite seq_nth in Hget by lia. cbn [fst snd Nat.add] in Hget. apply Hget.
    + unfold dict_keys. rewrite map_map. simpl. apply cp_names_NoDup.
    + rewrite length_map, length_seq. lia.
  - rewrite Hentry. cbn [variables_dominantes]. rewrite Hrank.
    apply map_ext_in. intros p Hp. f_equal.
    apply (loadings_frame_get a names N K p i Hs); [|exact HiK].
    apply Hrange. now apply Hin_ps.
  - unfold ps. rewrite length_firstn, Hlen. lia.
  - assert (Hnd' : NoDup order).
    { apply (Permutation_NoDup (Permutation_sym (Hv _))). apply seq_NoDup. }
    rewrite Hsplit in Hnd'. now apply NoDup_app_remove_r in Hnd'.
  - intros p Hp. apply Hrange. now apply Hin_ps.
  - revert Hfop. apply FOP_impl_in.
    intros p q Hp Hq Hpq.
    now rewrite <- !Habs by (apply Hrange; now apply Hin_ps).
  - intros p q Hp Hq Hnot.
    rewrite <- !Habs by (assumption || (apply Hrange; now apply Hin_ps)).
    apply Hcross; [assumption|].
    assert (Hq' : In q order).
    { apply (Permutation_in _ (Permutation_sym (Hv _))). apply in_seq.
      unfold abs_loadings. rewrite length_map, length_seq. lia. }
    rewrite Hsplit in Hq'. apply in_app_or in Hq'. tauto.
Qed.

End DominantVariables.

Section ReferenceOrderFacts.
Context {F : Type} `{Num F}.

Lemma insert_asc_perm (v : list F) (p : nat) (l : list nat) :
  Permutation (insert_asc v p l) (p :: l).
Proof.
  induction l as [|q l IH]; simpl; [reflexivity|].
  destruct (flt (nth p v c0) (nth q v c0)); [reflexivity|].
  rewrite IH. apply perm_swap.
Qed.

Lemma argsort_stable_acc (v : list F) (ps acc : list nat) :
  Permutation (fold_left (fun acc p => insert_asc v p acc) ps acc) (ps ++ acc).
Proof.
  revert acc; induction ps as [|p ps IH]; intros acc; simpl; [reflexivity|].
  rewrite IH, insert_asc_perm. symmetry. apply Permutation_middle.
Qed.

Lemma argsort_stable_perm (v : list F) (ps : list nat) :
  Permutation (argsort_stable v ps) ps.
Proof.
  unfold argsort_stable. rewrite argsort_stable_acc. now rewrite app_nil_r.
Qed.

Lemma filter_split_perm (f : nat -> bool) (l : list nat) :
  Permutation (filter (fun p => negb (f p)) l ++ filter f l) l.
Proof.
  induction l as [|x l IH]; simpl; [reflexivity|].
  destruct (f x); simpl.
  - rewrite <- Permutation_middle. now constructor.
  - now constructor.
Qed.

Lemma reversed_ties_valid : valid_order (reversed_ties (F := F)).
Proof.
  intros v. unfold reversed_ties.
  now rewrite <- Permutation_rev, argsort_stable_perm.
Qed.

(** The reference order is a rearrangement of the positions. *)
Lemma nargsort_desc_valid : valid_order (nargsort_desc (F := F)).
Proof.
  intros v. unfold nargsort_desc.
  rewrite <- Permutation_rev, argsort_stable_perm, <- Permutation_rev.
  apply filter_split_perm.
Qed.

End ReferenceOrderFacts.

Section SumFacts.
Import Exact ExactPCA.
#[local] Open Scope R_scope.

Lemma bigsum_ext (n : nat) (f g : nat -> R) :
  (forall i, (i < n)%nat -> f i = g i) -> bigsum n f = bigsum n g.
Proof.
  induction n as [|n IH]; intros Hfg; simpl; [reflexivity|].
  rewrite IH, Hfg by (intros; try apply Hfg; lia). reflexivity.
Qed.

Lemma bigsum_zero (n : nat) : bigsum n (fun _ => 0) = 0.
Proof. induction n as [|n IH]; simpl; [|rewrite IH]; lra. Qed.

Lemma bigsum_plus (n : nat) (f g : nat -> R) :
  bigsum n (fun i => f i + g i) = bigsum n f + bigsum n g.
Proof. induction n as [|n IH]; simpl; [|rewrite IH]; lra. Qed.

Lemma bigsum_scal (n : nat) (c : R) (f : nat -> R) :
  bigsum n (fun i => c * f i) = c * bigsum n f.
Proof. induction n as [|n IH]; simpl; [|rewrite IH]; lra. Qed.

Lemma bigsum_scal_r (n : nat) (c : R) (f : nat -> R) :
  bigsum n (fun i => f i * c) = bigsum n f * c.
Proof. induction n as [|n IH]; simpl; [|rewrite IH]; lra. Qed.

Lemma bigsum_swap (n m : nat) (f : nat -> nat -> R) :
  bigsum n (fun i => bigsum m (fun k => f i k)) =
  bigsum m (fun k => bigsum n (fun i => f i k)).
Proof.
  induction n as [|n IH]; simpl.
  - now rewrite bigsum_zero.
  - now rewrite IH, bigsum_plus.
Qed.

Lemma bigsum_delta (n k : nat) (c : nat -> R) :
  (k < n)%nat -> bigsum n (fun l => c l * delta k l) = c k.
Proof.
  unfold delta. induction n as [|n IH]; intros Hk; simpl; [lia|].
  destruct (Nat.eqb_spec k n) as [-> | Hne].
  - rewrite (bigsum_ext n _ (fun _ => 0)).
    + rewrite bigsum_zero. lra.
    + intros i Hi. destruct (Nat.eqb_spec n i); [lia | lra].
  - rewrite IH by lia. lra.
Qed.

Lemma fold_left_bigsum (n : nat) (g : nat -> R) :
  fold_left Rplus (map g (seq 0 n)) 0 = bigsum n g.
Proof.
  induction n as [|n IH]; [reflexivity|].
  rewrite seq_S, map_app, fold_left_app, IH. reflexivity.
Qed.

End SumFacts.

Section CommunalitesFacts.
Context {F : Type} `{Num F}.

Lemma communalites_run (self : AnalyseACP F) a names N K :
  fitted self a names N K ->
  fst (communalites self) =
  Ok {| Variable_ := names;
        Communalite := np.round 4 (h2_of (loadings_frame a names)) |}.
Proof.
  intros Hfit. unfold communalites, bind.
  rewrite (loadings_run _ _ _ _ _ Hfit).
  pose proof (fit_shape _ _ _ _ _ Hfit) as Hs.
  destruct Hfit as [_ Hn Hlen _].
  unfold with_resultat. cbn [noms_variables]. rewrite Hn.
  assert (Hl : length (pd.s_values (pd.sum_axis1 (pd.square (loadings_frame a names))))
               = N).
  { unfold pd.sum_axis1, pd.square. cbn [pd.s_values pd.values np.item].
    rewrite !length_map.
    destruct (loadings_frame_shaped a names N K Hs) as [Hl' _].
    rewrite Hl'. simpl. apply (fs_ncol _ _ _ Hs). }
  rewrite Hl, Hlen, Nat.eqb_refl. unfold set_resultat, update, ret.
  reflexivity.
Qed.

Lemma loadings_row a names N K (j : nat) :
  fitted_shape a N K -> j < N ->
  nth j (np.item (pd.values (loadings_frame a names))) [] =
  map (fun k => loading a k j) (seq 0 K).
Proof.
  intros Hs Hj.
  destruct (loadings_frame_shaped a names N K Hs) as [Hlen Hrows].
  assert (Hrow : length (nth j (np.item (pd.values (loadings_frame a names))) []) = K).
  { rewrite Forall_forall in Hrows. rewrite (Hrows _); [|apply nth_In].
    - simpl. apply (fs_nrow _ _ _ Hs).
    - rewrite Hlen. simpl. now rewrite (fs_ncol _ _ _ Hs). }
  apply (nth_ext _ _ c0 c0).
  - now rewrite length_map, length_seq.
  - intros k Hk. rewrite Hrow in Hk. rewrite (nth_map_seq _ _ _ _ Hk).
    exact (loadings_frame_get a names N K j k Hs Hj Hk).
Qed.

End CommunalitesFacts.

Section ExactFacts.
Import Exact ExactPCA.
#[local] Open Scope R_scope.

(** Rounding leaves 1 as it is. *)
Lemma round4_one : round 4 1 = 1.
Proof.
  unfold round, rint.
  replace (1 * 10 ^ 4) with (IZR 10000) by (simpl; lra).
  rewrite ZfloorZ.
  destruct (Rlt_dec (IZR 10000 - IZR 10000) (1 / 2)) as [_ | Hn];
    [simpl; lra | exfalso; apply Hn; lra].
Qed.

Section Gram.
Variables (X : pd.DataFrame R) (a : PCAFit R).
Variables (U : nat -> nat -> R) (S : nat -> R) (V : nat -> nat -> R).
Hypothesis Hpca : pca_of X a U S V.

(** The squared norm of a centred column, through the decomposition. *)
Lemma centred_norm (j : nat) :
  (j < n_var X)%nat ->
  bigsum (n_obs X) (fun i => centred X i j * centred X i j) =
  bigsum (Nat.min (n_obs X) (n_var X)) (fun k => S k * S k * (V k j * V k j)).
Proof.
  intros Hj.
  rewrite (bigsum_ext _ _
    (fun i => bigsum (Nat.min (n_obs X) (n_var X)) (fun k =>
              bigsum (Nat.min (n_obs X) (n_var X)) (fun l =>
       (S k * V k j * (S l * V l j)) * (U i k * U i l))))).
  2:{ intros i Hi. rewrite (pca_svd X a U S V Hpca i j Hi Hj).
      rewrite <- bigsum_scal_r. apply bigsum_ext. intros k Hk.
      rewrite <- bigsum_scal. apply bigsum_ext. intros l Hl. ring. }
  rewrite bigsum_swap. apply bigsum_ext. intros k Hk.
  rewrite bigsum_swap.
  rewrite (bigsum_ext _ _ (fun l => (S k * V k j * (S l * V l j)) * delta k l)).
  2:{ intros l Hl. rewrite bigsum_scal.
      now rewrite (pca_left X a U S V Hpca k l Hk Hl). }
  rewrite (bigsum_delta (Nat.min (n_obs X) (n_var X)) k
             (fun l => S k * V k j * (S l * V l j)) Hk).
  ring.
Qed.

(** With every component kept, the sum of the squared loadings of a
    variable is the sample variance of its column. *)
Lemma h2_is_sample_variance (names : list label) (N : nat) (j : nat) :
  fitted_shape a N N -> n_var X = N -> (2 <= n_obs X)%nat -> (j < N)%nat ->
  nth j (h2_of (loadings_frame a names)) 0 = sample_variance X j.
Proof.
  intros Hs HN Hn Hj.
  assert (HK : n_components_ a = N) by apply (fs_count _ _ _ Hs).
  assert (Hr : Nat.min (n_obs X) (n_var X) = N).
  { pose proof (pca_rank X a U S V Hpca) as Hrank. lia. }
  assert (Hpos : 0 < INR (n_obs X) - 1).
  { apply le_INR in Hn. simpl in Hn. lra. }
  pose proof (loadings_frame_length a names N N Hs) as Hlen.
  unfold h2_of.
  rewrite (nth_map_in _ _ _ [] 0) by now rewrite length_map, Hlen.
  rewrite (nth_map_in _ _ _ [] []) by now rewrite Hlen.
  rewrite (loadings_row a names N N j Hs Hj), map_map.
  unfold pd.row_sum. cbn [fisnan fadd R_Num c0].
  rewrite (fold_left_bigsum N (fun k => fmul (loading a k j) (loading a k j))).
  unfold sample_variance.
  rewrite (centred_norm j) by (rewrite HN; exact Hj).
  rewrite Hr. unfold Rdiv. rewrite <- bigsum_scal_r.
  apply bigsum_ext. intros k Hk. unfold loading. cbn [fmul fsqrt R_Num c0].
  rewrite (pca_components X a U S V Hpca k j) by (rewrite ?HK, ?HN; assumption).
  rewrite (pca_variance X a U S V Hpca k) by (rewrite HK; assumption).
  set (e := S k * S k / (INR (n_obs X) - 1)).
  assert (He : 0 <= e).
  { unfold e. apply Rmult_le_pos; [apply Rle_0_sqr|].
    left. now apply Rinv_0_lt_compat. }
  replace (V k j * R_sqrt.sqrt e * (V k j * R_sqrt.sqrt e))
    with (V k j * V k j * (R_sqrt.sqrt e * R_sqrt.sqrt e)) by ring.
  rewrite (R_sqrt.sqrt_sqrt e He). unfold e, Rdiv. ring.
Qed.

End Gram.

(** C2.  In exact arithmetic, for a matrix of N standardized columns
    (sample mean 0, sample standard deviation 1) and an object fitted on
    it with all N components kept, [communalites] returns, for every
    variable, the sum of its squared loadings over the N components, and
    that sum is 1. *)
Theorem communalites_unit (X : pd.DataFrame R) (self : AnalyseACP R)
    (a : PCAFit R) (names : list label) (N : nat)
    (U : nat -> nat -> R) (S : nat -> R) (V : nat -> nat -> R) :
  fitted self a names N N ->
  n_var X = N ->
  (2 <= n_obs X)%nat ->
  standardized X ->
  pca_of X a U S V ->
  exists h,
    fst (communalites self) = Ok h /\
    Variable_ h = names /\
    length (Communalite h) = N /\
    forall j, (j < N)%nat ->
      nth j (Communalite h) 0 =
        fround 4 (bigsum N (fun k => loading a k j * loading a k j)) /\
      nth j (Communalite h) 0 = 1.
Proof.
  intros Hfit HN Hn Hstd Hpca.
  pose proof (fit_shape _ _ _ _ _ Hfit) as Hs.
  eexists. split; [apply (communalites_run self a names N N Hfit)|].
  cbn [Variable_ Communalite]. split; [reflexivity|].
  assert (Hl : length (h2_of (loadings_frame a names)) = N).
  { unfold h2_of. rewrite !length_map.
    apply (loadings_frame_length a names N N Hs). }
  split; [unfold np.round; now rewrite length_map|].
  intros j Hj. unfold np.round.
  rewrite (nth_map_in _ _ _ 0 0) by now rewrite Hl.
  split.
  - f_equal. unfold h2_of.
    pose proof (loadings_frame_length a names N N Hs) as Hlen.
    rewrite (nth_map_in _ _ _ [] 0) by now rewrite length_map, Hlen.
    rewrite (nth_map_in _ _ _ [] []) by now rewrite Hlen.
    rewrite (loadings_row a names N N j Hs Hj), map_map.
    unfold pd.row_sum. cbn [fisnan fadd R_Num c0].
    rewrite (fold_left_bigsum N (fun k => fmul (loading a k j) (loading a k j))).
    reflexivity.
  - rewrite (h2_is_sample_variance X a U S V Hpca names N j Hs HN Hn Hj).
    destruct (Hstd j) as [_ Hvar]; [rewrite HN; exact Hj|].
    rewrite Hvar. apply round4_one.
Qed.

Lemma dot_bigsum (r c : list R) (N : nat) :
  length r = N -> length c = N ->
  dot r c = bigsum N (fun j => nth j r 0 * nth j c 0).
Proof.
  intros Hr Hc. unfold dot. cbn [fadd fmul c0 R_Num].
  rewrite <- fold_left_bigsum. f_equal.
  apply (nth_ext _ _ 0 0).
  - rewrite !length_map, length_combine, length_seq, Hr, Hc. apply Nat.min_id.
  - intros j Hj. rewrite length_map, length_combine, Hr, Hc, Nat.min_id in Hj.
    rewrite (nth_map_in _ _ _ (0, 0) 0)
      by (rewrite length_combine, Hr, Hc, Nat.min_id; exact Hj).
    rewrite nth_combine by (rewrite ?Hr, ?Hc; exact Hj).
    now rewrite (nth_map_seq _ _ _ _ Hj).
Qed.

Lemma delta_sym (k l : nat) : delta k l = delta l k.
Proof. unfold delta. now rewrite Nat.eqb_sym. Qed.

Section Scores.
Variables (X : pd.DataFrame R) (a : PCAFit R) (N K : nat).
Variables (U : nat -> nat -> R) (S : nat -> R) (V : nat -> nat -> R).
Hypothesis Hpca : pca_of X a U S V.
Hypothesis Hstd : standardized X.
Hypothesis HX : np.shaped (pd.values X).
Hypothesis HN : n_var X = N.
Hypothesis Hn : (2 <= n_obs X)%nat.
Hypothesis Hs : fitted_shape a N K.

Lemma projection_run : projection a X = Ok (scores_of X a).
Proof.
  unfold projection. fold (n_var X).
  now rewrite HN, (fs_ncol _ _ _ Hs), Nat.eqb_refl.
Qed.

Lemma column_sum_zero (j : nat) :
  (j < N)%nat -> bigsum (n_obs X) (fun i => cell X i j) = 0.
Proof.
  intros Hj. destruct (Hstd j) as [Hmean _]; [now rewrite HN|].
  unfold col_mean in Hmean.
  assert (Hpos : 0 < INR (n_obs X)).
  { apply lt_0_INR. lia. }
  apply (Rmult_eq_reg_r (/ INR (n_obs X))).
  - unfold Rdiv in Hmean. rewrite Hmean. ring.
  - apply Rinv_neq_0_compat. lra.
Qed.

Lemma cell_svd (i j : nat) :
  (i < n_obs X)%nat -> (j < N)%nat ->
  cell X i j =
  bigsum (Nat.min (n_obs X) (n_var X)) (fun l => U i l * S l * V l j).
Proof.
  intros Hi Hj. rewrite <- (pca_svd X a U S V Hpca i j) by (rewrite ?HN; assumption).
  unfold centred. destruct (Hstd j) as [Hmean _]; [now rewrite HN|].
  rewrite Hmean. ring.
Qed.

Lemma score_projection (i k : nat) :
  (i < n_obs X)%nat -> (k < K)%nat ->
  np.get (scores_of X a) i k = bigsum N (fun j => cell X i j * V k j).
Proof.
  intros Hi Hk. destruct HX as [HXl HXr]. destruct Hs as [[Hcl Hcr] Hr Hc _ _ Hcount].
  unfold np.get, scores_of. cbn [np.item].
  rewrite (nth_map_in _ _ _ [] []) by (rewrite HXl; exact Hi).
  rewrite (nth_map_in _ _ _ [] 0) by (rewrite Hcl, Hr; exact Hk).
  rewrite (dot_bigsum _ _ N).
  - apply bigsum_ext. intros j Hj. f_equal.
    rewrite <- (pca_components X a U S V Hpca k j) by (rewrite ?Hcount, ?HN; assumption).
    reflexivity.
  - rewrite Forall_forall in HXr. rewrite (HXr _); [exact HN | apply nth_In].
    rewrite HXl. exact Hi.
  - rewrite Forall_forall in Hcr. rewrite (Hcr _); [exact Hc | apply nth_In].
    rewrite Hcl, Hr. exact Hk.
Qed.

(** A score is the left singular vector scaled by the singular value. *)
Lemma score_value (i k : nat) :
  (i < n_obs X)%nat -> (k < K)%nat -> np.get (scores_of X a) i k = U i k * S k.
Proof.
  intros Hi Hk. rewrite (score_projection i k Hi Hk).
  assert (Hkr : (k < Nat.min (n_obs X) (n_var X))%nat).
  { pose proof (pca_rank X a U S V Hpca) as Hrank.
    rewrite (fs_count _ _ _ Hs) in Hrank. lia. }
  rewrite (bigsum_ext _ _
    (fun j => bigsum (Nat.min (n_obs X) (n_var X))
                (fun l => (U i l * S l) * (V l j * V k j)))).
  2:{ intros j Hj. rewrite (cell_svd i j Hi Hj). rewrite <- bigsum_scal_r.
      apply bigsum_ext. intros l Hl. ring. }
  rewrite bigsum_swap.
  rewrite (bigsum_ext _ _ (fun l => (U i l * S l) * delta k l)).
  2:{ intros l Hl. rewrite bigsum_scal. rewrite <- HN.
      rewrite (pca_right X a U S V Hpca l k Hl Hkr). now rewrite delta_sym. }
  now rewrite (bigsum_delta _ k (fun l => U i l * S l) Hkr).
Qed.

Lemma score_sum_zero (k : nat) :
  (k < K)%nat -> bigsum (n_obs X) (fun i => np.get (scores_of X a) i k) = 0.
Proof.
  intros Hk.
  rewrite (bigsum_ext _ _ (fun i => bigsum N (fun j => V k j * cell X i j))).
  2:{ intros i Hi. rewrite (score_projection i k Hi Hk).
      apply bigsum_ext. intros j Hj. ring. }
  rewrite bigsum_swap.
  rewrite (bigsum_ext _ _ (fun _ => 0)); [apply bigsum_zero|].
  intros j Hj. rewrite bigsum_scal, (column_sum_zero j Hj). ring.
Qed.

End Scores.

(** C6.  In exact arithmetic, with the projection as the spec words it:
    for a standardized matrix and an object fitted on it, [transformer]
    on that same matrix returns scores, labelled CP1..CPK, whose column
    [k] has sample variance [explained_variance_[k]]. *)
Theorem transformer_variance (X : pd.DataFrame R) (self : AnalyseACP R)
    (a : PCAFit R) (names : list label) (N K : nat)
    (U : nat -> nat -> R) (S : nat -> R) (V : nat -> nat -> R) :
  fitted self a names N K ->
  np.shaped (pd.values X) ->
  n_var X = N ->
  (2 <= n_obs X)%nat ->
  standardized X ->
  pca_of X a U S V ->
  exists scores,
    fst (transformer projection X self) = Ok scores /\
    pd.columns scores = map cp_name (seq 0 K) /\
    n_obs scores = n_obs X /\
    n_var scores = K /\
    forall k, (k < K)%nat ->
      sample_variance scores k = nth k (explained_variance_ a) 0.
Proof.
  intros Hfit HX HN Hn Hstd Hpca.
  pose proof (fit_shape _ _ _ _ _ Hfit) as Hs.
  destruct Hfit as [[nc Hp] _ _ _].
  unfold transformer. rewrite Hp. cbn [fst].
  rewrite (projection_run X a N K HN Hs). cbn [obind].
  unfold pd.mk. unfold scores_of at 1 2 3. cbn [np.nrow np.ncol].
  unfold pd.RangeIndex. rewrite !length_map, !length_seq, !Nat.eqb_refl.
  cbn [andb]. eexists. split; [reflexivity|].
  change (np.ncol (scores_of X a)) with (np.nrow (components_ a)).
  change (np.nrow (scores_of X a)) with (n_obs X).
  cbn [pd.columns]. rewrite (fs_nrow _ _ _ Hs).
  split; [reflexivity|]. split; [reflexivity|].
  split; [unfold n_var; cbn [pd.values]; exact (fs_nrow _ _ _ Hs)|].
  intros k Hk.
  assert (Hpos : 0 < INR (n_obs X) - 1).
  { apply le_INR in Hn. simpl in Hn. lra. }
  assert (Hkr : (k < Nat.min (n_obs X) (n_var X))%nat).
  { pose proof (pca_rank X a U S V Hpca) as Hrank.
    rewrite (fs_count _ _ _ Hs) in Hrank. lia. }
  unfold sample_variance, centred, col_mean, n_obs, cell. cbn [pd.values np.nrow].
  change (np.nrow (scores_of X a)) with (n_obs X).
  rewrite (score_sum_zero X a N K U S V Hpca Hstd HX HN Hn Hs k Hk).
  rewrite (bigsum_ext _ _ (fun i => (S k * S k) * (U i k * U i k))).
  2:{ intros i Hi. rewrite (score_value X a N K U S V Hpca Hstd HX HN Hn Hs i k Hi Hk).
      unfold Rdiv. ring. }
  rewrite bigsum_scal, (pca_left X a U S V Hpca k k Hkr Hkr).
  rewrite (pca_variance X a U S V Hpca k) by (rewrite (fs_count _ _ _ Hs); exact Hk).
  unfold delta. rewrite Nat.eqb_refl. unfold Rdiv. ring.
Qed.

(** On columns scaled to population variance 1, as [StandardScaler]
    leaves them, the sample variance is n / (n - 1). *)
Lemma population_scaled_variance (X : pd.DataFrame R) (j : nat) :
  (2 <= n_obs X)%nat ->
  population_variance X j = 1 ->
  sample_variance X j = INR (n_obs X) / (INR (n_obs X) - 1).
Proof.
  intros Hn Hpop. unfold population_variance, sample_variance in *.
  assert (Hpos : 1 < INR (n_obs X)).
  { apply le_INR in Hn. simpl in Hn. lra. }
  set (s := bigsum _ _) in *.
  assert (s = INR (n_obs X)).
  { apply (Rmult_eq_reg_r (/ INR (n_obs X))).
    - unfold Rdiv in Hpop. rewrite Hpop. field. lra.
    - apply Rinv_neq_0_compat. lra. }
  now rewrite H.
Qed.

End ExactFacts.

(** * The claims on concrete objects *)

Section Binary64Runs.
Import Binary64.

Lemma acp_abc_fitted :
  fitted acp_abc (attrs_with 3 [[0.8; -0.9; 0.1]]%float [1]%float)
         [LStr "A"; LStr "B"; LStr "C"] 3 1.
Proof.
  apply (acp_with_fitted ["A"; "B"; "C"]%string [[0.8; -0.9; 0.1]]%float [1]%float).
  - reflexivity.
  - repeat constructor.
Qed.

Lemma acp_six_fitted :
  fitted acp_six (attrs_with 6 basis6 [2; 1.5; 1; 0.8; 0.5; 0.2]%float)
         (map LStr names6) 6 6.
Proof.
  apply (acp_with_fitted names6 basis6 [2; 1.5; 1; 0.8; 0.5; 0.2]%float).
  - reflexivity.
  - repeat constructor.
Qed.

(** C7, as the program computes it.  For distinct variable names, a
    component [i] among the first min(K, 5) and [0 <= n_top <= N], the
    entry of [interpreter] for that component lists [n_top] distinct
    variables, each with its signed loading, in the order of the sort: no
    listed variable is followed by one of strictly larger absolute
    loading, and no variable left out has a strictly larger absolute
    loading than a listed one.  For the loadings 0.8, -0.9, 0.1 of A, B, C
    and [n_top = 2] the entry is [(B, -0.9); (A, 0.8)]. *)
Theorem interpreter_dominant :
  (forall (F : Type) (HF : Num F) (argsort_desc : list F -> list nat)
          (self : AnalyseACP F) a names N K (i : nat) (n_top : Z),
      fitted self a names N K ->
      NoDup names ->
      valid_order argsort_desc ->
      sorted_desc (abs_loadings a N i) (argsort_desc (abs_loadings a N i)) ->
      i < Nat.min K 5 ->
      (0 <= n_top <= Z.of_nat N)%Z ->
      exists interp e ps,
        fst (interpreter argsort_desc n_top self) = Ok interp /\
        dict_get label_eqb interp (cp_name i) = Some e /\
        variables_dominantes e =
          map (fun p => (nth p names (LInt 0), loading a i p)) ps /\
        length ps = Z.to_nat n_top /\
        NoDup ps /\
        (forall p, In p ps -> p < N) /\
        ForallOrdPairs
          (fun p q => flt (fabs (loading a i p)) (fabs (loading a i q)) = false)
          ps /\
        (forall p q, In p ps -> q < N -> ~ In q ps ->
           flt (fabs (loading a i p)) (fabs (loading a i q)) = false)) /\
  fst (interpreter nargsort_desc 2 acp_abc) =
    Ok [(LStr "CP1",
         {| variables_dominantes := [(LStr "B", (-0.9)%float); (LStr "A", 0.8%float)];
            variance_expliquee := 100%float |})].
Proof.
  split.
  - intros F HF argsort_desc self a names N K i n_top.
    apply interpreter_ranking.
  - vm_compute. reflexivity.
Qed.

(** C4 at a threshold above 1: on the eigenvalues 2.4, 0.4, 0.2 no
    cumulative proportion reaches 1.5, and [seuil_variance] raises
    nothing: it returns the count 1 and leaves [self] as it was. *)
Theorem seuil_variance_unreachable_returns_one :
  np.ge (np.cumsum (explained_variance_ratio_
                      (attrs_with 3 basis3 [2.4; 0.4; 0.2]%float))) 1.5%float
    = [false; false; false] /\
  seuil_variance 1.5%float acp_24_04_02 = (Ok 1%Z, acp_24_04_02).
Proof. split; vm_compute; reflexivity. Qed.

(** The same happens at the threshold 1: the running sum of the three
    proportions ends at 0.9999999999999999. *)
Lemma seuil_variance_at_one :
  np.cumsum (explained_variance_ratio_
               (attrs_with 3 basis3 [2.4; 0.4; 0.2]%float))
    = [0.79999999999999993; 0.93333333333333324; 0.99999999999999989]%float /\
  seuil_variance 1%float acp_24_04_02 = (Ok 1%Z, acp_24_04_02).
Proof. split; vm_compute; reflexivity. Qed.

(** C3 fails on its own example: the first proportion 2.4 / 3 is computed
    as 0.7999999999999999, the threshold 0.80 is the binary64 value
    0.8000000000000000444, and the rule answers 2. *)
Lemma seuil_variance_boundary_counterexample :
  explained_variance_ (attrs_with 3 basis3 [2.4; 0.4; 0.2]%float)
    = [2.4; 0.4; 0.2]%float /\
  fold_left PrimFloat.add [2.4; 0.4; 0.2]%float 0%float = 3%float /\
  cumulative (explained_variance_ratio_
                (attrs_with 3 basis3 [2.4; 0.4; 0.2]%float)) 1
    = 0x1.9999999999999p-1%float /\
  PrimFloat.leb 0.80%float 0x1.9999999999999p-1%float = false /\
  fst (seuil_variance 0.80%float acp_24_04_02) = Ok 2%Z /\
  fst (seuil_variance 0.80%float acp_24_04_02) <> Ok 1%Z.
Proof.
  repeat split; try (vm_compute; reflexivity).
  vm_compute. discriminate.
Qed.

(** C7 fails for a valid component beyond the fifth: with six components,
    the sixth (index 5) has no entry in what [interpreter] returns. *)
Lemma interpreter_sixth_component_counterexample :
  fitted acp_six (attrs_with 6 basis6 [2; 1.5; 1; 0.8; 0.5; 0.2]%float)
         (map LStr names6) 6 6 /\
  5 < 6 /\
  exists interp,
    fst (interpreter nargsort_desc 1 acp_six) = Ok interp /\
    dict_keys interp = [LStr "CP1"; LStr "CP2"; LStr "CP3"; LStr "CP4"; LStr "CP5"] /\
    dict_get label_eqb interp (cp_name 5) = None.
Proof.
  split; [exact acp_six_fitted|]. split; [lia|].
  eexists. split; [vm_compute; reflexivity|].
  split; vm_compute; reflexivity.
Qed.

(** Equal absolute loadings.  On the loadings 0.5, -0.5, 0.1 of A, B, C
    both the reference order and [reversed_ties] are descending
    rearrangements; the first lists A before B, the second B before A.
    The order of a tie is the library's choice, not the program's. *)
Lemma reversed_ties_admissible :
  sorted_desc [0.5; 0.5; 0.1]%float (reversed_ties [0.5; 0.5; 0.1]%float) /\
  sorted_desc [0.5; 0.5; 0.1]%float (nargsort_desc [0.5; 0.5; 0.1]%float) /\
  reversed_ties [0.5; 0.5; 0.1]%float = [1; 0; 2] /\
  nargsort_desc [0.5; 0.5; 0.1]%float = [0; 1; 2].
Proof.
  split; [|split]; [| |split; vm_compute; reflexivity];
    vm_compute; repeat constructor.
Qed.

Lemma interpreter_tie_order :
  let self := acp_with ["A"; "B"; "C"]%string [[0.5; -0.5; 0.1]]%float [1]%float in
  fst (interpreter nargsort_desc 2 self) =
    Ok [(LStr "CP1",
         {| variables_dominantes := [(LStr "A", 0.5%float); (LStr "B", (-0.5)%float)];
            variance_expliquee := 100%float |})] /\
  fst (interpreter reversed_ties 2 self) =
    Ok [(LStr "CP1",
         {| variables_dominantes := [(LStr "B", (-0.5)%float); (LStr "A", 0.5%float)];
            variance_expliquee := 100%float |})].
Proof. split; vm_compute; reflexivity. Qed.

End Binary64Runs.

Section Witnesses.
Import Binary64.

Lemma loadings_entries_witness :
  fitted acp_abc (attrs_with 3 [[0.8; -0.9; 0.1]]%float [1]%float)
         [LStr "A"; LStr "B"; LStr "C"] 3 1 /\
  exists df,
    fst (loadings acp_abc) = Ok df /\
    pd.index df = [LStr "A"; LStr "B"; LStr "C"] /\
    pd.columns df = map cp_name (seq 0 1) /\
    np.nrow (pd.values df) = 3 /\
    np.ncol (pd.values df) = 1 /\
    np.shaped (pd.values df) /\
    forall j k, j < 3 -> k < 1 ->
      np.get (pd.values df) j k =
      PrimFloat.mul (nth j [0.8; -0.9; 0.1]%float 0%float)
                    (PrimFloat.sqrt 1%float).
Proof.
  split; [exact acp_abc_fitted|].
  destruct (loadings_entries acp_abc _ _ 3 1 acp_abc_fitted)
    as [df [H1 [H2 [H3 [H4 [H5 [H6 H7]]]]]]].
  exists df. repeat split; try assumption; try apply H6.
  intros j k Hj Hk. rewrite (H7 j k Hj Hk).
  destruct k as [|k]; [reflexivity | lia].
Defined.

Lemma critere_kaiser_count_witness :
  fitted acp_six (attrs_with 6 basis6 [2; 1.5; 1; 0.8; 0.5; 0.2]%float)
         (map LStr names6) 6 6 /\
  PrimFloat.ltb 1 1 = false /\
  critere_kaiser acp_six = (Ok 2%Z, acp_six) /\
  ~ In 1%float (filter (fun x => PrimFloat.ltb 1 x)
                       [2; 1.5; 1; 0.8; 0.5; 0.2]%float).
Proof.
  split; [exact acp_six_fitted|]. split; [reflexivity|].
  exact (critere_kaiser_count acp_six _ _ 6 6 acp_six_fitted eq_refl).
Defined.

Lemma seuil_variance_smallest_witness :
  fitted acp_24_04_02 (attrs_with 3 basis3 [2.4; 0.4; 0.2]%float)
         [LStr "A"; LStr "B"; LStr "C"] 3 3 /\
  PrimFloat.leb 0.81%float
    (cumulative (explained_variance_ratio_
                   (attrs_with 3 basis3 [2.4; 0.4; 0.2]%float)) 2) = true /\
  exists n,
    seuil_variance 0.81%float acp_24_04_02 = (Ok (Z.of_nat n), acp_24_04_02) /\
    1 <= n <= 3.
Proof.
  split; [exact (acp3_fitted [2.4; 0.4; 0.2]%float eq_refl)|].
  split; [vm_compute; reflexivity|].
  destruct (proj1 seuil_variance_smallest acp_24_04_02 _ _ 3 3 0.81%float
              (acp3_fitted [2.4; 0.4; 0.2]%float eq_refl))
    as [n [Hrun [Hn _]]].
  - exists 2. split; [lia | vm_compute; reflexivity].
  - exists n. split; assumption.
Defined.

Lemma interpreter_first_five_witness :
  fitted acp_six (attrs_with 6 basis6 [2; 1.5; 1; 0.8; 0.5; 0.2]%float)
         (map LStr names6) 6 6 /\
  valid_order (nargsort_desc (F := float)) /\
  exists interp,
    fst (interpreter nargsort_desc 3 acp_six) = Ok interp /\
    dict_keys interp = map cp_name (seq 0 5) /\
    forall k, 5 <= k -> dict_get label_eqb interp (cp_name k) = None.
Proof.
  split; [exact acp_six_fitted|]. split; [exact nargsort_desc_valid|].
  exact (interpreter_first_five nargsort_desc acp_six _ _ 6 6 3
           acp_six_fitted nargsort_desc_valid).
Defined.

Lemma interpreter_dominant_witness :
  fitted acp_abc (attrs_with 3 [[0.8; -0.9; 0.1]]%float [1]%float)
         [LStr "A"; LStr "B"; LStr "C"] 3 1 /\
  NoDup [LStr "A"; LStr "B"; LStr "C"] /\
  sorted_desc (abs_loadings (attrs_with 3 [[0.8; -0.9; 0.1]]%float [1]%float) 3 0)
    (nargsort_desc
       (abs_loadings (attrs_with 3 [[0.8; -0.9; 0.1]]%float [1]%float) 3 0)) /\
  exists interp e ps,
    fst (interpreter nargsort_desc 2 acp_abc) = Ok interp /\
    dict_get label_eqb interp (cp_name 0) = Some e /\
    length ps = 2 /\
    variables_dominantes e =
      map (fun p => (nth p [LStr "A"; LStr "B"; LStr "C"] (LInt 0),
                     loading (attrs_with 3 [[0.8; -0.9; 0.1]]%float [1]%float) 0 p))
          ps.
Proof.
  assert (Hnd : NoDup [LStr "A"; LStr "B"; LStr "C"]).
  { repeat constructor; simpl; intuition discriminate. }
  assert (Hsorted :
    sorted_desc (abs_loadings (attrs_with 3 [[0.8; -0.9; 0.1]]%float [1]%float) 3 0)
      (nargsort_desc
         (abs_loadings (attrs_with 3 [[0.8; -0.9; 0.1]]%float [1]%float) 3 0))).
  { vm_compute. repeat constructor. }
  split; [exact acp_abc_fitted|]. split; [exact Hnd|]. split; [exact Hsorted|].
  destruct (proj1 interpreter_dominant float float_Num nargsort_desc acp_abc
              _ _ 3 1 0 2%Z acp_abc_fitted Hnd nargsort_desc_valid Hsorted)
    as [interp [e [ps [H1 [H2 [H3 [H4 _]]]]]]]; [simpl; lia | lia |].
  exists interp, e, ps. repeat split; assumption.
Defined.

End Witnesses.

Section ExactRuns.
Import Exact ExactPCA ExactExample.
#[local] Open Scope R_scope.

Lemma acp5_fitted : fitted acp5 attrs5 [LStr "x"; LStr "y"] 2 2.
Proof.
  split; [exists None; reflexivity | reflexivity | reflexivity |].
  split; try reflexivity. split; [reflexivity | repeat constructor].
Qed.

Lemma X5_mean (j : nat) : (j < 2)%nat -> col_mean X5 j = 0.
Proof.
  intros Hj. unfold col_mean, n_obs, cell, np.get. simpl.
  destruct j as [|[|j]]; try lia; simpl; lra.
Qed.

Lemma X5_centred (i j : nat) : (j < 2)%nat -> centred X5 i j = cell X5 i j.
Proof. intros Hj. unfold centred. rewrite (X5_mean j Hj). lra. Qed.

Lemma X5_standardized : standardized X5.
Proof.
  intros j Hj. change (n_var X5) with 2%nat in Hj.
  split; [now apply X5_mean|].
  unfold sample_variance.
  rewrite (bigsum_ext _ _ (fun i => cell X5 i j * cell X5 i j))
    by (intros; now rewrite X5_centred).
  unfold n_obs, cell, np.get. simpl.
  destruct j as [|[|j]]; try lia; simpl; lra.
Qed.

Lemma X5_pca : pca_of X5 attrs5 U5 S5 V5.
Proof.
  split; change (n_obs X5) with 5%nat; change (n_var X5) with 2%nat;
    change (Nat.min 5 2) with 2%nat; change (n_components_ attrs5) with 2%nat.
  - lia.
  - intros k l Hk Hl. unfold U5, cell, np.get, delta.
    destruct k as [|[|k]]; destruct l as [|[|l]]; try lia; simpl; lra.
  - intros k l Hk Hl. unfold V5, delta.
    destruct k as [|[|k]]; destruct l as [|[|l]]; try lia; simpl; lra.
  - intros i j Hi Hj. rewrite (X5_centred i j Hj).
    unfold U5, S5, V5, cell, np.get, delta.
    destruct j as [|[|j]]; try lia;
      destruct i as [|[|[|[|[|i]]]]]; try lia; simpl; lra.
  - intros k j Hk Hj. unfold V5, np.get, delta.
    destruct k as [|[|k]]; destruct j as [|[|j]]; try lia; reflexivity.
  - intros k Hk. unfold S5.
    destruct k as [|[|k]]; try lia; simpl; lra.
Qed.

Lemma communalites_unit_witness :
  fitted acp5 attrs5 [LStr "x"; LStr "y"] 2 2 /\
  n_var X5 = 2%nat /\ (2 <= n_obs X5)%nat /\
  standardized X5 /\ pca_of X5 attrs5 U5 S5 V5 /\
  exists h,
    fst (communalites acp5) = Ok h /\
    Variable_ h = [LStr "x"; LStr "y"] /\
    nth 0 (Communalite h) 0 = 1 /\ nth 1 (Communalite h) 0 = 1.
Proof.
  split; [exact acp5_fitted|]. split; [reflexivity|].
  split; [unfold n_obs; simpl; lia|].
  split; [exact X5_standardized|]. split; [exact X5_pca|].
  destruct (communalites_unit X5 acp5 attrs5 [LStr "x"; LStr "y"] 2 U5 S5 V5
              acp5_fitted eq_refl) as [h [Hrun [Hv [_ Hone]]]].
  - unfold n_obs; simpl; lia.
  - exact X5_standardized.
  - exact X5_pca.
  - exists h. split; [exact Hrun|]. split; [exact Hv|].
    split; [apply (Hone 0%nat) | apply (Hone 1%nat)]; lia.
Defined.

Lemma transformer_variance_witness :
  fitted acp5 attrs5 [LStr "x"; LStr "y"] 2 2 /\
  np.shaped (pd.values X5) /\
  n_var X5 = 2%nat /\ (2 <= n_obs X5)%nat /\
  standardized X5 /\ pca_of X5 attrs5 U5 S5 V5 /\
  exists scores,
    fst (transformer projection X5 acp5) = Ok scores /\
    pd.columns scores = [cp_name 0; cp_name 1] /\
    sample_variance scores 0 = 1 /\ sample_variance scores 1 = 1.
Proof.
  assert (HX : np.shaped (pd.values X5)).
  { split; [reflexivity | repeat constructor]. }
  assert (Hn : (2 <= n_obs X5)%nat) by (unfold n_obs; simpl; lia).
  split; [exact acp5_fitted|]. split; [exact HX|]. split; [reflexivity|].
  split; [exact Hn|]. split; [exact X5_standardized|]. split; [exact X5_pca|].
  destruct (transformer_variance X5 acp5 attrs5 [LStr "x"; LStr "y"] 2 2 U5 S5 V5
              acp5_fitted HX eq_refl Hn X5_standardized X5_pca)
    as [scores [Hrun [Hcols [_ [_ Hvar]]]]].
  exists scores. split; [exact Hrun|]. split; [exact Hcols|].
  split; [apply (Hvar 0%nat) | apply (Hvar 1%nat)]; lia.
Defined.

End ExactRuns.

(** * Further properties of the class *)

Section KeyedDictFacts.
Context {K V : Type}.
Variable eqb : K -> K -> bool.
Hypothesis eqb_eq : forall a b, eqb a b = true <-> a = b.

Lemma eqb_same (a : K) : eqb a a = true.
Proof. now apply eqb_eq. Qed.

Lemma eqb_differ (a b : K) : a <> b -> eqb a b = false.
Proof.
  intros Hne. destruct (eqb a b) eqn:E; [|reflexivity].
  apply eqb_eq in E. contradiction.
Qed.

Lemma dict_get_set_same (d : list (K * V)) (k : K) (v : V) :
  dict_get eqb (dict_set eqb d k v) k = Some v.
Proof.
  induction d as [|[k' v'] d IH]; simpl.
  - now rewrite eqb_same.
  - destruct (eqb k' k) eqn:E; simpl.
    + now rewrite eqb_same.
    + now rewrite E.
Qed.

Lemma dict_get_set_other (d : list (K * V)) (k k0 : K) (v : V) :
  k0 <> k ->
  dict_get eqb (dict_set eqb d k v) k0 = dict_get eqb d k0.
Proof.
  intros Hne. induction d as [|[k' v'] d IH]; simpl.
  - now rewrite eqb_differ by congruence.
  - destruct (eqb k' k) eqn:E; simpl.
    + apply eqb_eq in E. subst k'. now rewrite !eqb_differ by congruence.
    + destruct (eqb k' k0); [reflexivity | exact IH].
Qed.

(** Assigning to a key the value it holds changes nothing. *)
Lemma dict_set_held (d : list (K * V)) (k : K) (v : V) :
  dict_get eqb d k = Some v -> dict_set eqb d k v = d.
Proof.
  induction d as [|[k' v'] d IH]; simpl; [discriminate|].
  destruct (eqb k' k) eqn:E.
  - apply eqb_eq in E. subst k'. intros E'. injection E' as ->. reflexivity.
  - intros E'. now rewrite IH.
Qed.

End KeyedDictFacts.

Lemma path_eqb_eq (a b : string * string) : path_eqb a b = true <-> a = b.
Proof.
  destruct a as [a1 a2], b as [b1 b2]. unfold path_eqb. simpl.
  rewrite andb_true_iff, !String.eqb_eq. split.
  - now intros [-> ->].
  - intros E. injection E as -> ->. now split.
Qed.

Section UnfittedFacts.
Context {F : Type} `{Num F}.
Variable sk_fit : option Z -> pd.DataFrame F -> outcome (PCAFit F).
Variable sk_transform : PCAFit F -> pd.DataFrame F -> outcome (np.array2 F).
Variable argsort_desc : list F -> list nat.

Lemma unfitted_attrs (self : AnalyseACP F) :
  unfitted self -> fitted_attrs self = (Raise AttributeError, self).
Proof.
  unfold fitted_attrs. intros [Hp | [nc Hp]]; now rewrite Hp.
Qed.


(** A [fit] that raises: [ajuster] hands the exception over, after it has
    replaced the variable names and the estimator.  What an earlier
    [ajuster] had fitted is gone, the stored results stay. *)
Theorem ajuster_failure_unfits (X : pd.DataFrame F) (self : AnalyseACP F) e :
  sk_fit (n_composantes self) X = Raise e ->
  exists self',
    ajuster sk_fit X self = (Raise e, self') /\
    unfitted self' /\
    noms_variables self' = Some (pd.columns X) /\
    resultats self' = resultats self /\
    n_composantes self' = n_composantes self /\
    loadings self' = (Raise AttributeError, self').
Proof.
  intros Hfit. eexists. split; [apply (ajuster_fit_fails sk_fit X self e Hfit)|].
  split; [right; eexists; reflexivity|].
  split; [reflexivity|]. split; [reflexivity|]. split; [reflexivity|].
  apply unfitted_loadings with (nc := n_composantes self). reflexivity.
Qed.

(** A [fit] that succeeds with attributes of the promised shape: the
    object is fitted, its variable names are the columns of [X], the
    stored results and [n_composantes] are untouched, and [loadings]
    returns the frame indexed by those columns. *)
Theorem ajuster_success_fits (X : pd.DataFrame F) (self : AnalyseACP F) a K :
  sk_fit (n_composantes self) X = Ok a ->
  fitted_shape a (length (pd.columns X)) K ->
  exists self',
    ajuster sk_fit X self = (Ok tt, self') /\
    fitted self' a (pd.columns X) (length (pd.columns X)) K /\
    resultats self' = resultats self /\
    n_composantes self' = n_composantes self /\
    fst (loadings self') = Ok (loadings_frame a (pd.columns X)).
Proof.
  intros Hfit Hs. eexists.
  split; [apply (ajuster_fit_succeeds sk_fit X self a Hfit)|].
  assert (Hf : fitted
                 {| n_composantes := n_composantes self;
                    pca := Some (Fitted (n_composantes self) a);
                    noms_variables := Some (pd.columns X);
                    resultats := resultats self |}
                 a (pd.columns X) (length (pd.columns X)) K).
  { split; [eexists; reflexivity | reflexivity | reflexivity | exact Hs]. }
  split; [exact Hf|]. repeat split.
  now rewrite (loadings_run _ _ _ _ _ Hf).
Qed.

(** [ajuster_transformer]: when [fit] raises, [transform] is not reached;
    when both succeed, the scores come back under the columns CP1, CP2, ...
    and the default row index 0, 1, ... (the index of [X] is not carried
    over), on an object now fitted. *)
Theorem ajuster_transformer_frame (X : pd.DataFrame F) (self : AnalyseACP F) :
  (forall e, sk_fit (n_composantes self) X = Raise e ->
     fst (ajuster_transformer sk_fit sk_transform X self) = Raise e) /\
  (forall a scores,
     sk_fit (n_composantes self) X = Ok a ->
     sk_transform a X = Ok scores ->
     exists self',
       ajuster_transformer sk_fit sk_transform X self =
         (Ok {| pd.index := pd.RangeIndex (np.nrow scores);
                pd.columns := map cp_name (seq 0 (np.ncol scores));
                pd.values := scores |}, self') /\
       pca self' = Some (Fitted (n_composantes self) a) /\
       noms_variables self' = Some (pd.columns X)) /\
  (forall a e,
     sk_fit (n_composantes self) X = Ok a ->
     sk_transform a X = Raise e ->
     fst (ajuster_transformer sk_fit sk_transform X self) = Raise e).
Proof.
  unfold ajuster_transformer, bind. repeat split.
  - intros e Hfit. now rewrite (ajuster_fit_fails sk_fit X self e Hfit).
  - intros a scores Hfit Htr.
    rewrite (ajuster_fit_succeeds sk_fit X self a Hfit).
    unfold transformer. cbn [pca]. rewrite Htr. cbn [obind].
    unfold pd.mk, pd.RangeIndex.
    rewrite !length_map, !length_seq, !Nat.eqb_refl. cbn [andb].
    eexists. repeat split.
  - intros a e Hfit Htr.
    rewrite (ajuster_fit_succeeds sk_fit X self a Hfit).
    unfold transformer. cbn [pca]. now rewrite Htr.
Qed.

End UnfittedFacts.

Section RetentionMore.
Context {F : Type} `{Num F}.

Lemma filter_prefix (p : F -> bool) (l : list F) :
  (forall i j, i <= j -> j < length l ->
     p (nth j l c0) = true -> p (nth i l c0) = true) ->
  forall k, k < length l ->
    (p (nth k l c0) = true <-> k < length (filter p l)).
Proof.
  induction l as [|x l IH]; intros Hdown k Hk; simpl in Hk; [lia|].
  assert (Hdown' : forall i j, i <= j -> j < length l ->
            p (nth j l c0) = true -> p (nth i l c0) = true).
  { intros i j Hij Hj Hp. apply (Hdown (S i) (S j)); simpl; try lia. exact Hp. }
  simpl filter. destruct (p x) eqn:Hx.
  - destruct k as [|k]; simpl.
    + split; [lia | intros _; exact Hx].
    + rewrite (IH Hdown' k) by lia. lia.
  - assert (Hnone : forall j, j < length l -> p (nth j l c0) = false).
    { intros j Hj. destruct (p (nth j l c0)) eqn:Hp; [|reflexivity].
      specialize (Hdown 0 (S j)). simpl in Hdown.
      rewrite Hdown in Hx; [discriminate | lia | lia | exact Hp]. }
    assert (Hempty : filter p l = []).
    { clear -Hnone. induction l as [|y l IH]; [reflexivity|].
      pose proof (Hnone 0) as H0. simpl in H0. simpl. rewrite H0 by lia.
      apply IH. intros j Hj. apply (Hnone (S j)). simpl. lia. }
    rewrite Hempty. simpl. destruct k as [|k]; simpl.
    + rewrite Hx. split; [discriminate | lia].
    + rewrite Hnone by lia. split; [discriminate | lia].
Qed.

(** When the eigenvalues above 1 come first, as they do once sorted in
    descending order, the Kaiser count [n] is at most [K] and designates
    the first [n] components: component [k] has an eigenvalue above 1
    exactly when [k < n]. *)
Theorem critere_kaiser_prefix (self : AnalyseACP F) a names N K :
  fitted self a names N K ->
  (forall i j, i <= j -> j < K ->
     flt c1 (nth j (explained_variance_ a) c0) = true ->
     flt c1 (nth i (explained_variance_ a) c0) = true) ->
  exists n,
    critere_kaiser self = (Ok (Z.of_nat n), self) /\
    n <= K /\
    forall k, k < K ->
      (flt c1 (nth k (explained_variance_ a) c0) = true <-> k < n).
Proof.
  intros Hfit Hdown.
  pose proof (fs_variance _ _ _ (fit_shape _ _ _ _ _ Hfit)) as Hlen.
  exists (length (filter (fun x => flt c1 x) (explained_variance_ a))).
  split; [|split].
  - unfold critere_kaiser, bind. rewrite (fitted_attrs_run _ _ _ _ _ Hfit).
    unfold ret, np.gt. now rewrite sum_bool_count.
  - rewrite <- Hlen. apply filter_length_le.
  - intros k Hk. apply (filter_prefix (fun x => flt c1 x)).
    + intros i j Hij Hj. apply Hdown; [exact Hij | now rewrite <- Hlen].
    + now rewrite Hlen.
Qed.

(** Whatever the threshold, [seuil_variance] on a fitted object with at
    least one component returns a count between 1 and [K] and leaves the
    object as it was; with no component at all it raises [ValueError]
    (the [argmax] of an empty array). *)
Theorem seuil_variance_range (self : AnalyseACP F) a names N K (seuil : F) :
  fitted self a names N K ->
  (K = 0 -> seuil_variance seuil self = (Raise ValueError, self)) /\
  (1 <= K ->
   exists n, seuil_variance seuil self = (Ok (Z.of_nat n), self) /\ 1 <= n <= K).
Proof.
  intros Hfit.
  pose proof (fs_ratio _ _ _ (fit_shape _ _ _ _ _ Hfit)) as Hlen.
  split.
  - intros HK. rewrite HK in Hlen. apply length_zero_iff_nil in Hlen.
    unfold seuil_variance, bind. rewrite (fitted_attrs_run _ _ _ _ _ Hfit).
    rewrite Hlen. reflexivity.
  - intros HK.
    set (mask := np.ge (np.cumsum (explained_variance_ratio_ a)) seuil).
    assert (Hmlen : length mask = K)
      by (unfold mask, np.ge; now rewrite length_map, cumsum_length).
    destruct (argmax_spec mask) as [k [Hk [HkK _]]].
    { intros E. rewrite E in Hmlen. simpl in Hmlen. lia. }
    rewrite Hmlen in HkK. exists (k + 1).
    split; [now apply (seuil_variance_run self a names N K) | lia].
Qed.

(** Raising a threshold that stays reachable never lowers the count:
    if every cumulative proportion that reaches [s2] also reaches [s1]
    (as when [s1 <= s2]) and some proportion reaches [s2], the count for
    [s1] is at most the count for [s2]. *)
Theorem seuil_variance_monotone (self : AnalyseACP F) a names N K (s1 s2 : F) :
  fitted self a names N K ->
  (exists m, 1 <= m <= K /\
     fle s2 (cumulative (explained_variance_ratio_ a) m) = true) ->
  (forall m, 1 <= m <= K ->
     fle s2 (cumulative (explained_variance_ratio_ a) m) = true ->
     fle s1 (cumulative (explained_variance_ratio_ a) m) = true) ->
  exists n1 n2,
    seuil_variance s1 self = (Ok (Z.of_nat n1), self) /\
    seuil_variance s2 self = (Ok (Z.of_nat n2), self) /\
    n1 <= n2.
Proof.
  intros Hfit Hreach2 Hbelow.
  assert (Hreach1 : exists m, 1 <= m <= K /\
            fle s1 (cumulative (explained_variance_ratio_ a) m) = true).
  { destruct Hreach2 as [m [Hm Hr]]. exists m. split; [exact Hm|]. now apply Hbelow. }
  destruct (seuil_variance_reachable self a names N K s1 Hfit Hreach1)
    as [n1 [Hrun1 [Hn1 [_ Hmin1]]]].
  destruct (seuil_variance_reachable self a names N K s2 Hfit Hreach2)
    as [n2 [Hrun2 [Hn2 [Hat2 _]]]].
  exists n1, n2. split; [exact Hrun1|]. split; [exact Hrun2|].
  destruct (Nat.le_gt_cases n1 n2) as [Hle | Hgt]; [exact Hle|].
  exfalso. specialize (Hmin1 n2). rewrite (Hbelow n2) in Hmin1 by (lia || exact Hat2).
  discriminate Hmin1. lia.
Qed.

(** [valeurs_propres] on a fitted object: a table of [K] rows, stored
    under "valeurs_propres"; row [k] holds the label CP(k+1), the
    eigenvalue rounded to 4 decimals, its proportion in percent rounded to
    2 decimals, and the running sum of the proportions up to it, in
    percent, rounded to 2 decimals. *)
Theorem valeurs_propres_rows (self : AnalyseACP F) a names N K :
  fitted self a names N K ->
  exists vp,
    valeurs_propres self =
      (Ok vp, with_resultat self "valeurs_propres" (TValeursPropres vp)) /\
    length (Composante vp) = K /\ length (Valeur_Propre vp) = K /\
    length (Variance_pct vp) = K /\ length (Cumul_pct vp) = K /\
    forall k, k < K ->
      nth k (Composante vp) LNone = cp_name k /\
      nth k (Valeur_Propre vp) c0 =
        fround 4 (nth k (explained_variance_ a) c0) /\
      nth k (Variance_pct vp) c0 =
        fround 2 (fmul (nth k (explained_variance_ratio_ a) c0) c100) /\
      nth k (Cumul_pct vp) c0 =
        fround 2 (fmul (cumulative (explained_variance_ratio_ a) (k + 1)) c100).
Proof.
  intros Hfit.
  pose proof (fit_shape _ _ _ _ _ Hfit) as Hs.
  pose proof (fs_variance _ _ _ Hs) as Hv.
  pose proof (fs_ratio _ _ _ Hs) as Hr.
  eexists. split.
  - unfold valeurs_propres, bind. rewrite (fitted_attrs_run _ _ _ _ _ Hfit).
    rewrite cumsum_length, Hv, Hr, Nat.eqb_refl. cbn [andb].
    unfold set_resultat, update, ret. reflexivity.
  - cbn [Composante Valeur_Propre Variance_pct Cumul_pct]. unfold np.round.
    rewrite !length_map, length_seq, cumsum_length, Hv, Hr.
    repeat split; try reflexivity.
    + now apply nth_map_seq.
    + apply (nth_map_in (fround 4)). now rewrite Hv.
    + rewrite (nth_map_in (fround 2) _ _ c0) by now rewrite length_map, Hr.
      f_equal. apply (nth_map_in (fun r => fmul r c100)). now rewrite Hr.
    + rewrite (nth_map_in (fround 2) _ _ c0)
        by now rewrite length_map, cumsum_length, Hr.
      f_equal.
      rewrite (nth_map_in (fun r => fmul r c100) _ _ c0)
        by now rewrite cumsum_length, Hr.
      f_equal. rewrite <- (cumsum_nth _ (k + 1)) by lia.
      now replace (k + 1 - 1) with k by lia.
Qed.

End RetentionMore.

Section StateFacts.
Context {F : Type} `{Num F}.
Variable sk_transform : PCAFit F -> pd.DataFrame F -> outcome (np.array2 F).
Variable argsort_desc : list F -> list nat.

Lemma keeps_ret {A} (x : A) : keeps_estimator (ret x).
Proof. intros self. now repeat split. Qed.

Lemma keeps_lift {A} (o : outcome A) : keeps_estimator (lift o).
Proof. intros self. now repeat split. Qed.

Lemma keeps_fitted_attrs : keeps_estimator (fitted_attrs (F := F)).
Proof.
  intros self. unfold fitted_attrs.
  destruct (pca self) as [[nc | nc a] |] eqn:E; simpl; rewrite ?E; now repeat split.
Qed.

Lemma keeps_noms :
  keeps_estimator (fun self : AnalyseACP F => (Ok (noms_variables self), self)).
Proof. intros self. now repeat split. Qed.

Lemma keeps_set_resultat (k : string) (t : Table F) :
  keeps_estimator (set_resultat k t).
Proof. intros self. now repeat split. Qed.

Lemma keeps_bind {A B} (m : M A) (k : A -> M B) :
  keeps_estimator m -> (forall x, keeps_estimator (k x)) ->
  keeps_estimator (bind m k).
Proof.
  intros Hm Hk self. unfold bind.
  destruct (Hm self) as [H1 [H2 H3]].
  destruct (m self) as [[x | e] self1]; simpl in *.
  - destruct (Hk x self1) as [H4 [H5 H6]]. repeat split; congruence.
  - now repeat split.
Qed.

Ltac keeps :=
  repeat first
    [ apply keeps_ret | apply keeps_lift | apply keeps_fitted_attrs
    | apply keeps_noms | apply keeps_set_resultat
    | apply keeps_bind; [|intro]
    | match goal with
      | |- keeps_estimator (if ?c then _ else _) => destruct c
      end
    | progress cbv zeta ].

Lemma keeps_loadings : keeps_estimator (loadings (F := F)).
Proof. unfold loadings. keeps. Qed.

(** Whether they return or raise, the analysis methods leave the
    estimator, the variable names and [n_composantes] of the object as
    they were: only [self.resultats] can change.  The two retention rules
    change nothing at all. *)
Theorem methods_keep_estimator :
  keeps_estimator (valeurs_propres (F := F)) /\
  keeps_estimator (loadings (F := F)) /\
  keeps_estimator (communalites (F := F)) /\
  (forall n_top, keeps_estimator (interpreter argsort_desc n_top)) /\
  (forall X, keeps_estimator (transformer sk_transform X)) /\
  (forall self : AnalyseACP F, snd (critere_kaiser self) = self) /\
  (forall (seuil : F) (self : AnalyseACP F), snd (seuil_variance seuil self) = self).
Proof.
  split; [unfold valeurs_propres; keeps|].
  split; [exact keeps_loadings|].
  split; [unfold communalites; apply keeps_bind; [exact keeps_loadings | intro]; keeps|].
  split; [intros n_top; unfold interpreter;
          apply keeps_bind; [exact keeps_loadings | intro]; keeps|].
  split.
  - intros X self. unfold transformer.
    destruct (pca self) as [[nc | nc a] |] eqn:E; simpl; rewrite ?E; now repeat split.
  - split.
    + intros self. unfold critere_kaiser, bind, fitted_attrs, ret.
      destruct (pca self) as [[nc | nc a] |]; reflexivity.
    + intros seuil self. unfold seuil_variance, bind, fitted_attrs, lift, ret.
      destruct (pca self) as [[nc | nc a] |]; try reflexivity.
      destruct (np.argmax _) as [k | e]; [|reflexivity].
      destruct (np.getitem _ _); reflexivity.
Qed.

Lemma with_resultat_fitted (self : AnalyseACP F) a names N K k t :
  fitted self a names N K -> fitted (with_resultat self k t) a names N K.
Proof. intros [Hp Hn Hl Hs]. now split. Qed.

Lemma with_resultat_held (self : AnalyseACP F) k t :
  dict_get String.eqb (resultats self) k = Some t -> with_resultat self k t = self.
Proof.
  intros Hget. unfold with_resultat.
  rewrite (dict_set_held String.eqb String.eqb_eq _ _ _ Hget).
  now destruct self.
Qed.

Lemma communalites_run_full (self : AnalyseACP F) a names N K :
  fitted self a names N K ->
  communalites self =
  (Ok {| Variable_ := names;
         Communalite := np.round 4 (h2_of (loadings_frame a names)) |},
   with_resultat
     (with_resultat self "loadings" (TLoadings (loadings_frame a names)))
     "communalites"
     (TCommunalites
        {| Variable_ := names;
           Communalite := np.round 4 (h2_of (loadings_frame a names)) |})).
Proof.
  intros Hfit. unfold communalites, bind.
  rewrite (loadings_run _ _ _ _ _ Hfit).
  pose proof (fit_shape _ _ _ _ _ Hfit) as Hs.
  destruct Hfit as [_ Hn Hlen _].
  cbn [with_resultat noms_variables]. rewrite Hn.
  assert (Hl : length (pd.s_values (pd.sum_axis1 (pd.square (loadings_frame a names))))
               = N).
  { unfold pd.sum_axis1, pd.square. cbn [pd.s_values pd.values np.item].
    rewrite !length_map. apply (loadings_frame_length a names N K Hs). }
  rewrite Hl, Hlen, Nat.eqb_refl. reflexivity.
Qed.

(** [communalites] on a fitted object stores what it computes: afterwards
    [self.resultats] holds under "communalites" the table returned and
    under "loadings" the loadings frame, every other entry is as before,
    the object is still fitted, and a second call returns the same table
    and changes nothing any more. *)
Theorem communalites_stores (self : AnalyseACP F) a names N K :
  fitted self a names N K ->
  exists h self',
    communalites self = (Ok h, self') /\
    dict_get String.eqb (resultats self') "communalites"%string = Some (TCommunalites h) /\
    dict_get String.eqb (resultats self') "loadings"%string
      = Some (TLoadings (loadings_frame a names)) /\
    (forall k, k <> "loadings"%string -> k <> "communalites"%string ->
       dict_get String.eqb (resultats self') k = dict_get String.eqb (resultats self) k) /\
    fitted self' a names N K /\
    communalites self' = (Ok h, self').
Proof.
  intros Hfit. eexists. eexists.
  split; [apply (communalites_run_full self a names N K Hfit)|].
  set (L := TLoadings (loadings_frame a names)).
  set (h := TCommunalites _).
  assert (Hc : dict_get String.eqb
                 (resultats (with_resultat (with_resultat self "loadings" L)
                               "communalites" h)) "communalites"%string = Some h).
  { cbn [with_resultat resultats]. apply dict_get_set_same, String.eqb_eq. }
  assert (Hl : dict_get String.eqb
                 (resultats (with_resultat (with_resultat self "loadings" L)
                               "communalites" h)) "loadings"%string = Some L).
  { cbn [with_resultat resultats].
    rewrite dict_get_set_other by (apply String.eqb_eq || discriminate).
    apply dict_get_set_same, String.eqb_eq. }
  assert (Hf : fitted (with_resultat (with_resultat self "loadings" L)
                         "communalites" h) a names N K)
    by now apply with_resultat_fitted, with_resultat_fitted.
  split; [exact Hc|]. split; [exact Hl|]. split; [|split; [exact Hf|]].
  - intros k Hk1 Hk2. cbn [with_resultat resultats].
    rewrite !dict_get_set_other by (apply String.eqb_eq || assumption).
    reflexivity.
  - rewrite (communalites_run_full _ a names N K Hf). fold L. fold h.
    rewrite (with_resultat_held _ "loadings" L Hl).
    now rewrite (with_resultat_held _ "communalites" h Hc).
Qed.

End StateFacts.

Section InterpreterMore.
Context {F : Type} `{Num F}.
Variable argsort_desc : list F -> list nat.

Lemma ranking_length a names N K (i : nat) (n_top : Z) :
  fitted_shape a N K -> length names = N -> valid_order argsort_desc ->
  length (ranking argsort_desc a names N i n_top) = kept_rows N n_top.
Proof.
  intros Hs Hn Hv. unfold ranking. rewrite length_firstn.
  rewrite (Permutation_length (Hv _)), length_seq, length_map.
  rewrite (column_at_length a names N K Hs).
  unfold pd.head_count, kept_rows.
  destruct (0 <=? n_top)%Z; lia.
Qed.

(** For every [n_top], negative ones included, [interpreter] returns on a
    fitted object with distinct variable names, and the entry of each
    component [i < min(K, 5)] lists as many variables as [head(n_top)]
    keeps of [N] rows: [min(N, n_top)] for [n_top >= 0], so none for
    [n_top = 0] and all of them from [n_top = N] on, and [N - |n_top|]
    (or none) for a negative [n_top].  Its [variance_expliquee] is the
    component's ratio times 100, not rounded. *)
Theorem interpreter_n_top (self : AnalyseACP F) a names N K (i : nat) (n_top : Z) :
  fitted self a names N K ->
  NoDup names ->
  valid_order argsort_desc ->
  i < Nat.min K 5 ->
  exists interp e,
    fst (interpreter argsort_desc n_top self) = Ok interp /\
    dict_get label_eqb interp (cp_name i) = Some e /\
    length (variables_dominantes e) = kept_rows N n_top /\
    variance_expliquee e = fmul (nth i (explained_variance_ratio_ a) c0) c100.
Proof.
  intros Hfit Hnd Hv Hi.
  pose proof (fit_shape _ _ _ _ _ Hfit) as Hs.
  pose proof (fit_names _ _ _ _ _ Hfit) as Hn.
  destruct (interpreter_value argsort_desc self a names N K n_top Hfit Hv)
    as [E [Hrun HE]].
  assert (HiK : i < K) by lia.
  pose proof (interpreter_entry_NoDup argsort_desc a names N K Hs Hn i n_top
                Hv Hnd HiK) as Hentry.
  rewrite HE in Hentry by lia.
  assert (Hentry' := f_equal (fun o => match o with Ok e => e | Raise _ => E i end) Hentry).
  cbv beta iota in Hentry'. clear Hentry.
  exists (map (fun j => (cp_name j, E j)) (seq 0 (Nat.min 5 K))), (E i).
  split; [exact Hrun|]. split; [|split].
  - pose proof (dict_get_nth
                  (map (fun j => (cp_name j, E j)) (seq 0 (Nat.min 5 K)))
                  i (LInt 0) (E i)) as Hget.
    rewrite (nth_map_in _ _ _ 0) in Hget by (rewrite length_seq; lia).
    rewrite seq_nth in Hget by lia. cbn [fst snd Nat.add] in Hget. apply Hget.
    + unfold dict_keys. rewrite map_map. simpl. apply cp_names_NoDup.
    + rewrite length_map, length_seq. lia.
  - rewrite Hentry'. cbn [variables_dominantes]. rewrite length_map.
    now apply (ranking_length a names N K).
  - rewrite Hentry'. reflexivity.
Qed.

End InterpreterMore.

Section SavingFacts.
Context {F : Type} `{Num F}.

Lemma valeurs_propres_returns (self : AnalyseACP F) a names N K :
  fitted self a names N K ->
  exists vp,
    valeurs_propres self =
      (Ok vp, with_resultat self "valeurs_propres" (TValeursPropres vp)).
Proof.
  intros Hfit.
  pose proof (fit_shape _ _ _ _ _ Hfit) as Hs.
  eexists. unfold valeurs_propres, bind. rewrite (fitted_attrs_run _ _ _ _ _ Hfit).
  rewrite cumsum_length, (fs_variance _ _ _ Hs), (fs_ratio _ _ _ Hs), Nat.eqb_refl.
  cbn [andb]. unfold set_resultat, update, ret. reflexivity.
Qed.

Lemma makedirs_files (d : string) (w : Disk F) : files (makedirs d w) = files w.
Proof. unfold makedirs. now destruct (existsb _ _). Qed.

Lemma makedirs_creates (d : string) (w : Disk F) : In d (dirs (makedirs d w)).
Proof.
  unfold makedirs. destruct (existsb _ _) eqn:E.
  - apply existsb_exists in E. destruct E as [x [Hx E]].
    apply String.eqb_eq in E. now subst x.
  - now left.
Qed.

Lemma makedirs_keeps (d d' : string) (w : Disk F) :
  In d' (dirs w) -> In d' (dirs (makedirs d w)).
Proof. unfold makedirs. destruct (existsb _ _); [easy | now right]. Qed.

(** [sauvegarder] on a fitted object returns, with the directory made and
    three files written in it: the eigenvalue table and the communality
    table that the methods return, both without their row index, and the
    loadings frame with its row labels.  Every other file and every
    directory already there is kept, and the object is still fitted. *)
Theorem sauvegarder_writes (D : string) (w : Disk F) (self : AnalyseACP F)
    a names N K :
  fitted self a names N K ->
  exists vp h self' w',
    sauvegarder D w self = (Ok tt, self', w') /\
    fst (valeurs_propres self) = Ok vp /\
    fst (communalites self) = Ok h /\
    dict_get path_eqb (files w') (D, "acp_valeurs_propres.csv"%string)
      = Some {| csv_table := TValeursPropres vp; csv_index := false |} /\
    dict_get path_eqb (files w') (D, "acp_loadings.csv"%string)
      = Some {| csv_table := TLoadings (loadings_frame a names); csv_index := true |} /\
    dict_get path_eqb (files w') (D, "acp_communalites.csv"%string)
      = Some {| csv_table := TCommunalites h; csv_index := false |} /\
    (forall p, p <> (D, "acp_valeurs_propres.csv"%string) ->
               p <> (D, "acp_loadings.csv"%string) ->
               p <> (D, "acp_communalites.csv"%string) ->
       dict_get path_eqb (files w') p = dict_get path_eqb (files w) p) /\
    In D (dirs w') /\
    (forall d, In d (dirs w) -> In d (dirs w')) /\
    fitted self' a names N K.
Proof.
  intros Hfit.
  destruct (valeurs_propres_returns self a names N K Hfit) as [vp Hvp].
  pose proof (with_resultat_fitted self a names N K "valeurs_propres"
                (TValeursPropres vp) Hfit) as Hf1.
  pose proof (loadings_run _ a names N K Hf1) as HL.
  pose proof (with_resultat_fitted _ a names N K "loadings"
                (TLoadings (loadings_frame a names)) Hf1) as Hf2.
  pose proof (communalites_run_full _ a names N K Hf2) as Hh.
  pose proof (communalites_run_full _ a names N K Hfit) as Hh0.
  exists vp. do 3 eexists.
  split.
  { unfold sauvegarder. rewrite Hvp. cbv beta iota zeta.
    rewrite HL. cbv beta iota zeta. rewrite Hh. reflexivity. }
  split; [now rewrite Hvp|]. split; [now rewrite Hh0|].
  cbn [to_csv files dirs].
  split; [|split; [|split; [|split; [|split; [|split]]]]].
  - rewrite !dict_get_set_other
      by (apply path_eqb_eq || (intros E; inversion E)).
    apply dict_get_set_same, path_eqb_eq.
  - rewrite dict_get_set_other
      by (apply path_eqb_eq || (intros E; inversion E)).
    apply dict_get_set_same, path_eqb_eq.
  - apply dict_get_set_same, path_eqb_eq.
  - intros p H1 H2 H3.
    rewrite !dict_get_set_other by (apply path_eqb_eq || assumption).
    now rewrite makedirs_files.
  - apply makedirs_creates.
  - intros d. apply makedirs_keeps.
  - now do 2 apply with_resultat_fitted.
Qed.

(** [sauvegarder] before a successful [ajuster]: the directory is made,
    then the first method raises [AttributeError]; no file is written or
    changed and the object is as it was. *)
Theorem sauvegarder_unfitted (D : string) (w : Disk F) (self : AnalyseACP F) :
  unfitted self ->
  exists w',
    sauvegarder D w self = (Raise AttributeError, self, w') /\
    files w' = files w /\
    In D (dirs w') /\
    (forall d, In d (dirs w) -> In d (dirs w')).
Proof.
  intros Hu. exists (makedirs D w). split; [|split; [|split]].
  - unfold sauvegarder, valeurs_propres, bind.
    now rewrite (unfitted_attrs self Hu).
  - apply makedirs_files.
  - apply makedirs_creates.
  - intros d. apply makedirs_keeps.
Qed.

End SavingFacts.

Section ExactBounds.
Import Exact ExactPCA.
#[local] Open Scope R_scope.

Lemma bigsum_nonneg (n : nat) (f : nat -> R) :
  (forall i, (i < n)%nat -> 0 <= f i) -> 0 <= bigsum n f.
Proof.
  induction n as [|n IH]; intros Hf; simpl; [lra|].
  assert (0 <= bigsum n f) by (apply IH; intros; apply Hf; lia).
  assert (0 <= f n) by (apply Hf; lia). lra.
Qed.

Lemma bigsum_prefix_le (K M : nat) (f : nat -> R) :
  (K <= M)%nat -> (forall i, (i < M)%nat -> 0 <= f i) ->
  bigsum K f <= bigsum M f.
Proof.
  intros HKM Hf. induction M as [|M IH].
  - replace K with 0%nat by lia. lra.
  - destruct (Nat.eq_dec K (S M)) as [-> | Hne]; [lra|].
    simpl. assert (bigsum K f <= bigsum M f)
      by (apply IH; [lia | intros; apply Hf; lia]).
    assert (0 <= f M) by (apply Hf; lia). lra.
Qed.

Lemma bigsum_term_le (K k : nat) (f : nat -> R) :
  (k < K)%nat -> (forall i, (i < K)%nat -> 0 <= f i) -> f k <= bigsum K f.
Proof.
  intros Hk Hf.
  apply (Rle_trans _ (bigsum (S k) f)).
  - simpl. assert (0 <= bigsum k f)
      by (apply bigsum_nonneg; intros; apply Hf; lia). lra.
  - apply bigsum_prefix_le; [lia | exact Hf].
Qed.

Lemma bigsum_pair_le (K k l : nat) (f : nat -> R) :
  (k < l)%nat -> (l < K)%nat -> (forall i, (i < K)%nat -> 0 <= f i) ->
  f k + f l <= bigsum K f.
Proof.
  intros Hkl Hl Hf.
  apply (Rle_trans _ (bigsum (S l) f)).
  - simpl. assert (f k <= bigsum l f)
      by (apply bigsum_term_le; [lia | intros; apply Hf; lia]). lra.
  - apply bigsum_prefix_le; [lia | exact Hf].
Qed.

Lemma rint_bounds (y : R) (M : Z) :
  0 <= y <= IZR M -> (0 <= rint y <= M)%Z.
Proof.
  intros [H0 HM]. unfold rint.
  pose proof (Zfloor_bound y) as [Hlo Hhi].
  assert (Hn0 : (0 <= Zfloor y)%Z) by (apply Zfloor_lub; exact H0).
  assert (HnM : (Zfloor y <= M)%Z) by (apply le_IZR; lra).
  destruct (Rlt_dec (y - IZR (Zfloor y)) (1 / 2)) as [Hd | Hd]; [lia|].
  assert (Hlt : (Zfloor y < M)%Z).
  { destruct (Z.eq_dec (Zfloor y) M) as [E | E]; [|lia].
    exfalso. apply Hd. rewrite E in *. lra. }
  destruct (Rlt_dec (1 / 2) (y - IZR (Zfloor y))); [lia|].
  destruct (Z.even (Zfloor y)); lia.
Qed.

Lemma round_unit (d : nat) (x : R) : 0 <= x <= 1 -> 0 <= round d x <= 1.
Proof.
  intros [H0 H1]. unfold round.
  assert (Hp : 0 < 10 ^ d) by (apply pow_lt; lra).
  assert (Hz : 10 ^ d = IZR (10 ^ Z.of_nat d)) by apply pow_IZR.
  destruct (rint_bounds (x * 10 ^ d) (10 ^ Z.of_nat d)) as [Hlo Hhi].
  { rewrite <- Hz. split; [apply Rmult_le_pos; lra|].
    rewrite <- (Rmult_1_l (10 ^ d)) at 2.
    apply Rmult_le_compat_r; lra. }
  apply IZR_le in Hlo, Hhi. rewrite <- Hz in Hhi.
  split.
  - apply Rmult_le_pos; [exact Hlo | left; now apply Rinv_0_lt_compat].
  - apply (Rmult_le_reg_r (10 ^ d)); [exact Hp|].
    unfold Rdiv. rewrite Rmult_assoc, Rinv_l by lra. lra.
Qed.

(** The communality before rounding, as a sum over the components kept. *)
Lemma h2_bigsum (a : PCAFit R) (names : list label) (N K j : nat) :
  fitted_shape a N K -> (j < N)%nat ->
  nth j (h2_of (loadings_frame a names)) 0 =
  bigsum K (fun k => loading a k j * loading a k j).
Proof.
  intros Hs Hj. unfold h2_of.
  pose proof (loadings_frame_length a names N K Hs) as Hlen.
  rewrite (nth_map_in _ _ _ [] 0) by now rewrite length_map, Hlen.
  rewrite (nth_map_in _ _ _ [] []) by now rewrite Hlen.
  rewrite (loadings_row a names N K j Hs Hj), map_map.
  unfold pd.row_sum. cbn [fisnan fadd R_Num c0].
  now rewrite (fold_left_bigsum K (fun k => fmul (loading a k j) (loading a k j))).
Qed.

Section Partial.
Variables (X : pd.DataFrame R) (a : PCAFit R).
Variables (U : nat -> nat -> R) (S : nat -> R) (V : nat -> nat -> R).
Hypothesis Hpca : pca_of X a U S V.

(** With [K] components kept, the squared loadings of a variable add up
    to at most the sample variance of its column. *)
Lemma h2_le_sample_variance (N K j : nat) :
  fitted_shape a N K -> n_var X = N -> (2 <= n_obs X)%nat -> (j < N)%nat ->
  bigsum K (fun k => loading a k j * loading a k j) <= sample_variance X j.
Proof.
  intros Hs HN Hn Hj.
  assert (HK : n_components_ a = K) by apply (fs_count _ _ _ Hs).
  pose proof (pca_rank X a U S V Hpca) as Hrank. rewrite HK in Hrank.
  assert (Hpos : 0 < INR (n_obs X) - 1).
  { apply le_INR in Hn. simpl in Hn. lra. }
  unfold sample_variance.
  rewrite (centred_norm X a U S V Hpca j) by (rewrite HN; exact Hj).
  unfold Rdiv. rewrite <- bigsum_scal_r.
  rewrite (bigsum_ext K _
             (fun k => S k * S k * (V k j * V k j) * / (INR (n_obs X) - 1))).
  - apply bigsum_prefix_le; [exact Hrank|].
    intros k Hk. apply Rmult_le_pos; [|left; now apply Rinv_0_lt_compat].
    apply Rmult_le_pos; apply Rle_0_sqr.
  - intros k Hk. unfold loading. cbn [fmul fsqrt R_Num c0].
    rewrite (pca_components X a U S V Hpca k j) by (rewrite ?HK, ?HN; assumption).
    rewrite (pca_variance X a U S V Hpca k) by (rewrite HK; assumption).
    set (e := S k * S k / (INR (n_obs X) - 1)).
    assert (He : 0 <= e).
    { unfold e. apply Rmult_le_pos; [apply Rle_0_sqr|].
      left. now apply Rinv_0_lt_compat. }
    replace (V k j * R_sqrt.sqrt e * (V k j * R_sqrt.sqrt e))
      with (V k j * V k j * (R_sqrt.sqrt e * R_sqrt.sqrt e)) by ring.
    rewrite (R_sqrt.sqrt_sqrt e He). unfold e, Rdiv. ring.
Qed.

End Partial.

End ExactBounds.

Section ExactRanges.
Import Exact ExactPCA.
#[local] Open Scope R_scope.

(** In exact arithmetic, for standardized columns and any number [K] of
    components kept, every communality that [communalites] returns lies
    between 0 and 1. *)
Theorem communalites_bounded (X : pd.DataFrame R) (self : AnalyseACP R)
    (a : PCAFit R) (names : list label) (N K : nat)
    (U : nat -> nat -> R) (S : nat -> R) (V : nat -> nat -> R) :
  fitted self a names N K ->
  n_var X = N ->
  (2 <= n_obs X)%nat ->
  standardized X ->
  pca_of X a U S V ->
  exists h,
    fst (communalites self) = Ok h /\
    length (Communalite h) = N /\
    forall j, (j < N)%nat -> 0 <= nth j (Communalite h) 0 <= 1.
Proof.
  intros Hfit HN Hn Hstd Hpca.
  pose proof (fit_shape _ _ _ _ _ Hfit) as Hs.
  eexists. split; [apply (communalites_run self a names N K Hfit)|].
  cbn [Communalite].
  assert (Hl : length (h2_of (loadings_frame a names)) = N).
  { unfold h2_of. rewrite !length_map.
    apply (loadings_frame_length a names N K Hs). }
  split; [unfold np.round; now rewrite length_map|].
  intros j Hj. unfold np.round.
  rewrite (nth_map_in _ _ _ 0 0) by now rewrite Hl.
  rewrite (h2_bigsum a names N K j Hs Hj).
  apply round_unit. split.
  - apply bigsum_nonneg. intros k _. apply Rle_0_sqr.
  - destruct (Hstd j) as [_ Hvar]; [rewrite HN; exact Hj|].
    rewrite <- Hvar.
    apply (h2_le_sample_variance X a U S V Hpca N K j Hs HN Hn Hj).
Qed.

(** In exact arithmetic, for standardized columns, the frame that
    [loadings] returns has every entry in [-1, 1], and the loadings of a
    variable on any two components kept lie within the unit circle. *)
Theorem loadings_unit_disc (X : pd.DataFrame R) (self : AnalyseACP R)
    (a : PCAFit R) (names : list label) (N K : nat)
    (U : nat -> nat -> R) (S : nat -> R) (V : nat -> nat -> R) :
  fitted self a names N K ->
  n_var X = N ->
  (2 <= n_obs X)%nat ->
  standardized X ->
  pca_of X a U S V ->
  exists L,
    fst (loadings self) = Ok L /\
    forall j, (j < N)%nat ->
      (forall k, (k < K)%nat -> Rabs (np.get (pd.values L) j k) <= 1) /\
      (forall k l, (k < l)%nat -> (l < K)%nat ->
         np.get (pd.values L) j k * np.get (pd.values L) j k +
         np.get (pd.values L) j l * np.get (pd.values L) j l <= 1).
Proof.
  intros Hfit HN Hn Hstd Hpca.
  pose proof (fit_shape _ _ _ _ _ Hfit) as Hs.
  exists (loadings_frame a names).
  split; [now rewrite (loadings_run self a names N K Hfit)|].
  intros j Hj.
  assert (Hsum : bigsum K (fun k => loading a k j * loading a k j) <= 1).
  { destruct (Hstd j) as [_ Hvar]; [rewrite HN; exact Hj|].
    rewrite <- Hvar.
    apply (h2_le_sample_variance X a U S V Hpca N K j Hs HN Hn Hj). }
  assert (Hsq : forall i, (i < K)%nat -> 0 <= loading a i j * loading a i j)
    by (intros; apply Rle_0_sqr).
  split.
  - intros k Hk. rewrite (loadings_frame_get a names N K j k Hs Hj Hk).
    change (Rabs (loading a k j) <= 1).
    pose proof (bigsum_term_le K k _ Hk Hsq) as Hle. cbv beta in Hle.
    assert (Hx : loading a k j * loading a k j <= 1) by lra.
    revert Hx. generalize (loading a k j). intros x Hx.
    apply Rabs_le. split; nra.
  - intros k l Hkl Hl.
    rewrite (loadings_frame_get a names N K j k Hs Hj) by lia.
    rewrite (loadings_frame_get a names N K j l Hs Hj Hl).
    change (loading a k j * loading a k j + loading a l j * loading a l j <= 1).
    pose proof (bigsum_pair_le K k l _ Hkl Hl Hsq) as Hle. cbv beta in Hle.
    lra.
Qed.

(** In exact arithmetic, on columns scaled to variance 1 with the [n]
    denominator, as [StandardScaler] of [standardiser_acp] scales them,
    and with every component kept, each communality that [communalites]
    returns is [n / (n - 1)] rounded to 4 decimals, the unrounded value
    being above 1. *)
Theorem communalites_population_scaled (X : pd.DataFrame R) (self : AnalyseACP R)
    (a : PCAFit R) (names : list label) (N : nat)
    (U : nat -> nat -> R) (S : nat -> R) (V : nat -> nat -> R) :
  fitted self a names N N ->
  n_var X = N ->
  (2 <= n_obs X)%nat ->
  (forall j, (j < N)%nat -> population_variance X j = 1) ->
  pca_of X a U S V ->
  exists h,
    fst (communalites self) = Ok h /\
    1 < INR (n_obs X) / (INR (n_obs X) - 1) /\
    forall j, (j < N)%nat ->
      nth j (Communalite h) 0 = fround 4 (INR (n_obs X) / (INR (n_obs X) - 1)).
Proof.
  intros Hfit HN Hn Hpop Hpca.
  pose proof (fit_shape _ _ _ _ _ Hfit) as Hs.
  eexists. split; [apply (communalites_run self a names N N Hfit)|].
  cbn [Communalite].
  assert (Hpos : 1 < INR (n_obs X)).
  { apply le_INR in Hn. simpl in Hn. lra. }
  split.
  - apply (Rmult_lt_reg_r (INR (n_obs X) - 1)); [lra|].
    unfold Rdiv. rewrite Rmult_assoc, Rinv_l by lra. lra.
  - intros j Hj.
    assert (Hl : length (h2_of (loadings_frame a names)) = N).
    { unfold h2_of. rewrite !length_map.
      apply (loadings_frame_length a names N N Hs). }
    unfold np.round. rewrite (nth_map_in _ _ _ 0 0) by now rewrite Hl.
    rewrite (h2_is_sample_variance X a U S V Hpca names N j Hs HN Hn Hj).
    now rewrite (population_scaled_variance X j Hn (Hpop j Hj)).
Qed.

End ExactRanges.

Section MoreRuns.
Import Binary64 Binary64More.


Lemma ajuster_failure_unfits_witness :
  fit_refuses (n_composantes acp_abc) X_abc = Raise ValueError /\
  exists self',
    ajuster fit_refuses X_abc acp_abc = (Raise ValueError, self') /\
    unfitted self' /\
    loadings self' = (Raise AttributeError, self').
Proof.
  split; [reflexivity|].
  destruct (ajuster_failure_unfits fit_refuses X_abc acp_abc ValueError eq_refl)
    as [self' [Hrun [Hu [_ [_ [_ Hl]]]]]].
  exists self'. repeat split; assumption.
Defined.

Lemma ajuster_success_fits_witness :
  fit_abc (n_composantes (__init__ (F := float) None)) X_abc
    = Ok (attrs_with 3 [[0.8; -0.9; 0.1]]%float [1]%float) /\
  fitted_shape (attrs_with 3 [[0.8; -0.9; 0.1]]%float [1]%float)
    (length (pd.columns X_abc)) 1 /\
  exists self',
    ajuster fit_abc X_abc (__init__ None) = (Ok tt, self') /\
    fitted self' (attrs_with 3 [[0.8; -0.9; 0.1]]%float [1]%float)
      [LStr "A"; LStr "B"; LStr "C"] 3 1.
Proof.
  assert (Hs : fitted_shape (attrs_with 3 [[0.8; -0.9; 0.1]]%float [1]%float)
                 (length (pd.columns X_abc)) 1)
    by exact (fit_shape _ _ _ _ _ acp_abc_fitted).
  split; [reflexivity|]. split; [exact Hs|].
  destruct (ajuster_success_fits fit_abc X_abc (__init__ None) _ 1 eq_refl Hs)
    as [self' [Hrun [Hf _]]].
  exists self'. split; [exact Hrun | exact Hf].
Defined.

Lemma ajuster_transformer_frame_witness :
  exists scores self',
    fit_abc (n_composantes (__init__ (F := float) None)) X_abc
      = Ok (attrs_with 3 [[0.8; -0.9; 0.1]]%float [1]%float) /\
    projection (attrs_with 3 [[0.8; -0.9; 0.1]]%float [1]%float) X_abc = Ok scores /\
    np.nrow scores = 3 /\ np.ncol scores = 1 /\
    fst (ajuster_transformer fit_abc projection X_abc (__init__ None)) =
      Ok {| pd.index := [LInt 0; LInt 1; LInt 2];
            pd.columns := [LStr "CP1"];
            pd.values := scores |} /\
    pca self' = Some (Fitted None (attrs_with 3 [[0.8; -0.9; 0.1]]%float [1]%float)).
Proof.
  eexists.
  assert (Htr : projection (attrs_with 3 [[0.8; -0.9; 0.1]]%float [1]%float) X_abc
                = Ok _) by (vm_compute; reflexivity).
  destruct (proj1 (proj2 (ajuster_transformer_frame fit_abc projection X_abc
                            (__init__ None))) _ _ eq_refl Htr)
    as [self' [Hrun [Hp _]]].
  exists self'. split; [reflexivity|]. split; [exact Htr|].
  split; [reflexivity|]. split; [reflexivity|].
  split; [now rewrite Hrun | exact Hp].
Defined.

Lemma critere_kaiser_prefix_witness :
  fitted acp_six (attrs_with 6 basis6 [2; 1.5; 1; 0.8; 0.5; 0.2]%float)
         (map LStr names6) 6 6 /\
  (forall i j, i <= j -> j < 6 ->
     PrimFloat.ltb 1 (nth j [2; 1.5; 1; 0.8; 0.5; 0.2]%float 0%float) = true ->
     PrimFloat.ltb 1 (nth i [2; 1.5; 1; 0.8; 0.5; 0.2]%float 0%float) = true) /\
  critere_kaiser acp_six = (Ok 2%Z, acp_six).
Proof.
  assert (Hdown : forall i j, i <= j -> j < 6 ->
     PrimFloat.ltb 1 (nth j [2; 1.5; 1; 0.8; 0.5; 0.2]%float 0%float) = true ->
     PrimFloat.ltb 1 (nth i [2; 1.5; 1; 0.8; 0.5; 0.2]%float 0%float) = true).
  { intros i j Hij Hj.
    destruct j as [|[|[|[|[|[|j]]]]]]; try lia;
      destruct i as [|[|[|[|[|[|i]]]]]]; try lia;
      vm_compute; congruence. }
  split; [exact acp_six_fitted|]. split; [exact Hdown|].
  destruct (@critere_kaiser_prefix float float_Num acp_six
              (attrs_with 6 basis6 [2; 1.5; 1; 0.8; 0.5; 0.2]%float)
              (map LStr names6) 6 6 acp_six_fitted Hdown)
    as [n [Hrun [Hn Hiff]]].
  assert (H1 : 1 < n) by (apply (Hiff 1); [lia | reflexivity]).
  assert (H2 : ~ 2 < n).
  { intros Hlt. apply (Hiff 2) in Hlt; [|lia]. vm_compute in Hlt. discriminate. }
  replace n with 2 in Hrun by lia. exact Hrun.
Defined.

Lemma seuil_variance_range_witness :
  fitted acp_six (attrs_with 6 basis6 [2; 1.5; 1; 0.8; 0.5; 0.2]%float)
         (map LStr names6) 6 6 /\
  exists n, seuil_variance 0.8%float acp_six = (Ok (Z.of_nat n), acp_six) /\
            1 <= n <= 6.
Proof.
  split; [exact acp_six_fitted|].
  apply (seuil_variance_range acp_six _ _ 6 6 0.8%float acp_six_fitted). lia.
Defined.

Lemma seuil_variance_monotone_witness :
  fitted acp_225_05_025 (attrs_with 3 basis3 [2.25; 0.5; 0.25]%float)
         [LStr "A"; LStr "B"; LStr "C"] 3 3 /\
  PrimFloat.leb 0.8
    (cumulative (ratio_of [2.25; 0.5; 0.25]%float) 2) = true /\
  exists n1 n2,
    seuil_variance 0.5%float acp_225_05_025 = (Ok (Z.of_nat n1), acp_225_05_025) /\
    seuil_variance 0.8%float acp_225_05_025 = (Ok (Z.of_nat n2), acp_225_05_025) /\
    n1 <= n2.
Proof.
  pose proof (acp3_fitted [2.25; 0.5; 0.25]%float eq_refl) as Hfit.
  split; [exact Hfit|]. split; [reflexivity|].
  apply (@seuil_variance_monotone float float_Num acp_225_05_025
           (attrs_with 3 basis3 [2.25; 0.5; 0.25]%float)
           [LStr "A"; LStr "B"; LStr "C"] 3 3 0.5%float 0.8%float Hfit).
  - exists 2. split; [lia | reflexivity].
  - intros m Hm.
    destruct m as [|[|[|[|m]]]]; try lia; vm_compute; congruence.
Defined.

Lemma valeurs_propres_rows_witness :
  fitted acp_six (attrs_with 6 basis6 [2; 1.5; 1; 0.8; 0.5; 0.2]%float)
         (map LStr names6) 6 6 /\
  exists vp,
    fst (valeurs_propres acp_six) = Ok vp /\
    length (Composante vp) = 6 /\
    nth 1 (Valeur_Propre vp) 0%float = Binary64.round 4 1.5%float.
Proof.
  split; [exact acp_six_fitted|].
  destruct (valeurs_propres_rows acp_six _ _ 6 6 acp_six_fitted)
    as [vp [Hrun [Hlen [_ [_ [_ Hrows]]]]]].
  exists vp. split; [now rewrite Hrun|]. split; [exact Hlen|].
  destruct (Hrows 1) as [_ [Hv _]]; [lia | exact Hv].
Defined.

End MoreRuns.

Section StateRuns.
Import Binary64 Binary64More.

Lemma communalites_stores_witness :
  fitted acp_abc (attrs_with 3 [[0.8; -0.9; 0.1]]%float [1]%float)
         [LStr "A"; LStr "B"; LStr "C"] 3 1 /\
  exists h self',
    communalites acp_abc = (Ok h, self') /\
    dict_get String.eqb (resultats self') "communalites"%string
      = Some (TCommunalites h) /\
    communalites self' = (Ok h, self').
Proof.
  split; [exact acp_abc_fitted|].
  destruct (communalites_stores acp_abc _ _ 3 1 acp_abc_fitted)
    as [h [self' [Hrun [Hc [_ [_ [_ Hagain]]]]]]].
  exists h, self'. repeat split; assumption.
Defined.

Lemma interpreter_n_top_witness :
  fitted acp_six (attrs_with 6 basis6 [2; 1.5; 1; 0.8; 0.5; 0.2]%float)
         (map LStr names6) 6 6 /\
  NoDup (map LStr names6) /\
  valid_order (nargsort_desc (F := float)) /\
  exists interp e,
    fst (interpreter nargsort_desc (-2) acp_six) = Ok interp /\
    dict_get label_eqb interp (cp_name 0) = Some e /\
    length (variables_dominantes e) = 4.
Proof.
  assert (Hnd : NoDup (map LStr names6)).
  { repeat constructor; simpl; intuition discriminate. }
  split; [exact acp_six_fitted|]. split; [exact Hnd|].
  split; [exact nargsort_desc_valid|].
  destruct (interpreter_n_top nargsort_desc acp_six _ _ 6 6 0 (-2)%Z
              acp_six_fitted Hnd nargsort_desc_valid)
    as [interp [e [Hrun [Hget [Hlen _]]]]]; [simpl; lia|].
  exists interp, e. repeat split; assumption.
Defined.

Lemma sauvegarder_writes_witness :
  fitted acp_abc (attrs_with 3 [[0.8; -0.9; 0.1]]%float [1]%float)
         [LStr "A"; LStr "B"; LStr "C"] 3 1 /\
  exists self' w',
    sauvegarder "tables" no_disk acp_abc = (Ok tt, self', w') /\
    dict_get path_eqb (files w') ("tables", "acp_loadings.csv")%string
      = Some {| csv_table :=
                  TLoadings (loadings_frame
                               (attrs_with 3 [[0.8; -0.9; 0.1]]%float [1]%float)
                               [LStr "A"; LStr "B"; LStr "C"]);
                csv_index := true |} /\
    dict_get path_eqb (files w') ("tables", "scores_acp.csv")%string = None /\
    In "tables"%string (dirs w').
Proof.
  split; [exact acp_abc_fitted|].
  destruct (sauvegarder_writes "tables" no_disk acp_abc _ _ 3 1 acp_abc_fitted)
    as [vp [h [self' [w' [Hrun [_ [_ [_ [HL [_ [Hother [Hdir _]]]]]]]]]]]].
  exists self', w'. split; [exact Hrun|]. split; [exact HL|].
  split; [|exact Hdir].
  rewrite Hother by (intros E; inversion E). reflexivity.
Defined.

Lemma sauvegarder_unfitted_witness :
  unfitted (__init__ (F := float) None) /\
  exists w',
    sauvegarder "tables" no_disk (__init__ None)
      = (Raise AttributeError, __init__ None, w') /\
    files w' = [] /\
    In "tables"%string (dirs w').
Proof.
  assert (Hu : unfitted (__init__ (F := float) None)) by (left; reflexivity).
  split; [exact Hu|].
  destruct (sauvegarder_unfitted "tables" no_disk (__init__ None) Hu)
    as [w' [Hrun [Hfiles [Hdir _]]]].
  exists w'. repeat split; assumption.
Defined.

End StateRuns.

Section ExactMoreRuns.
Import Exact ExactPCA ExactExample ExactMore.
#[local] Open Scope R_scope.

Lemma acp5_first_fitted : fitted acp5_first attrs5_first [LStr "x"; LStr "y"] 2 1.
Proof.
  split; [exists (Some 1%Z); reflexivity | reflexivity | reflexivity |].
  split; try reflexivity. split; [reflexivity | repeat constructor].
Qed.

Lemma X5_pca_first : pca_of X5 attrs5_first U5 S5 V5.
Proof.
  split; change (n_obs X5) with 5%nat; change (n_var X5) with 2%nat;
    change (Nat.min 5 2) with 2%nat;
    change (n_components_ attrs5_first) with 1%nat.
  - lia.
  - intros k l Hk Hl. apply (pca_left X5 attrs5 U5 S5 V5 X5_pca k l Hk Hl).
  - intros k l Hk Hl. apply (pca_right X5 attrs5 U5 S5 V5 X5_pca k l Hk Hl).
  - intros i j Hi Hj. apply (pca_svd X5 attrs5 U5 S5 V5 X5_pca i j Hi Hj).
  - intros k j Hk Hj. unfold V5, np.get, delta.
    destruct k as [|k]; destruct j as [|[|j]]; try lia; reflexivity.
  - intros k Hk. unfold S5.
    destruct k as [|k]; try lia; simpl; lra.
Qed.

Lemma acp4_fitted : fitted acp4 attrs4 [LStr "x"] 1 1.
Proof.
  split; [exists None; reflexivity | reflexivity | reflexivity |].
  split; try reflexivity. split; [reflexivity | repeat constructor].
Qed.

Lemma X4_centred (i : nat) : centred X4 i 0 = cell X4 i 0.
Proof.
  unfold centred, col_mean, n_obs, cell, np.get. simpl. lra.
Qed.

Lemma X4_population (j : nat) : (j < 1)%nat -> population_variance X4 j = 1.
Proof.
  intros Hj. replace j with 0%nat by lia. unfold population_variance.
  rewrite (bigsum_ext _ _ (fun i => cell X4 i 0 * cell X4 i 0))
    by (intros; now rewrite X4_centred).
  unfold n_obs, cell, np.get. simpl. lra.
Qed.

Lemma X4_pca : pca_of X4 attrs4 U4 S4 V4.
Proof.
  split; change (n_obs X4) with 4%nat; change (n_var X4) with 1%nat;
    change (Nat.min 4 1) with 1%nat; change (n_components_ attrs4) with 1%nat.
  - lia.
  - intros k l Hk Hl. unfold U4, cell, np.get, delta.
    destruct k as [|k]; destruct l as [|l]; try lia; simpl; lra.
  - intros k l Hk Hl. unfold V4, delta.
    destruct k as [|k]; destruct l as [|l]; try lia; simpl; lra.
  - intros i j Hi Hj. replace j with 0%nat by lia. rewrite X4_centred.
    unfold U4, S4, V4, cell, np.get, delta.
    destruct i as [|[|[|[|i]]]]; try lia; simpl; lra.
  - intros k j Hk Hj. unfold V4, np.get, delta.
    destruct k as [|k]; destruct j as [|j]; try lia; reflexivity.
  - intros k Hk. unfold S4.
    destruct k as [|k]; try lia; simpl; lra.
Qed.

Lemma communalites_bounded_witness :
  fitted acp5_first attrs5_first [LStr "x"; LStr "y"] 2 1 /\
  n_var X5 = 2%nat /\ (2 <= n_obs X5)%nat /\
  standardized X5 /\ pca_of X5 attrs5_first U5 S5 V5 /\
  exists h,
    fst (communalites acp5_first) = Ok h /\
    0 <= nth 0 (Communalite h) 0 <= 1 /\ 0 <= nth 1 (Communalite h) 0 <= 1.
Proof.
  assert (Hn : (2 <= n_obs X5)%nat) by (unfold n_obs; simpl; lia).
  split; [exact acp5_first_fitted|]. split; [reflexivity|].
  split; [exact Hn|]. split; [exact X5_standardized|].
  split; [exact X5_pca_first|].
  destruct (communalites_bounded X5 acp5_first attrs5_first [LStr "x"; LStr "y"]
              2 1 U5 S5 V5 acp5_first_fitted eq_refl Hn X5_standardized
              X5_pca_first) as [h [Hrun [_ Hb]]].
  exists h. split; [exact Hrun|].
  split; [apply (Hb 0%nat) | apply (Hb 1%nat)]; lia.
Defined.

Lemma loadings_unit_disc_witness :
  fitted acp5 attrs5 [LStr "x"; LStr "y"] 2 2 /\
  n_var X5 = 2%nat /\ (2 <= n_obs X5)%nat /\
  standardized X5 /\ pca_of X5 attrs5 U5 S5 V5 /\
  exists L,
    fst (loadings acp5) = Ok L /\
    Rabs (np.get (pd.values L) 0 0) <= 1 /\
    np.get (pd.values L) 1 0 * np.get (pd.values L) 1 0 +
    np.get (pd.values L) 1 1 * np.get (pd.values L) 1 1 <= 1.
Proof.
  assert (Hn : (2 <= n_obs X5)%nat) by (unfold n_obs; simpl; lia).
  split; [exact acp5_fitted|]. split; [reflexivity|].
  split; [exact Hn|]. split; [exact X5_standardized|]. split; [exact X5_pca|].
  destruct (loadings_unit_disc X5 acp5 attrs5 [LStr "x"; LStr "y"]
              2 2 U5 S5 V5 acp5_fitted eq_refl Hn X5_standardized X5_pca)
    as [L [Hrun Hb]].
  exists L. split; [exact Hrun|]. split.
  - destruct (Hb 0%nat) as [Habs _]; [lia|]. apply (Habs 0%nat). lia.
  - destruct (Hb 1%nat) as [_ Hpair]; [lia|]. apply (Hpair 0%nat 1%nat); lia.
Defined.

Lemma communalites_population_scaled_witness :
  fitted acp4 attrs4 [LStr "x"] 1 1 /\
  n_var X4 = 1%nat /\ (2 <= n_obs X4)%nat /\
  (forall j, (j < 1)%nat -> population_variance X4 j = 1) /\
  pca_of X4 attrs4 U4 S4 V4 /\
  exists h,
    fst (communalites acp4) = Ok h /\
    nth 0 (Communalite h) 0 = Exact.round 4 (INR 4 / (INR 4 - 1)).
Proof.
  assert (Hn : (2 <= n_obs X4)%nat) by (unfold n_obs; simpl; lia).
  split; [exact acp4_fitted|]. split; [reflexivity|].
  split; [exact Hn|]. split; [exact X4_population|]. split; [exact X4_pca|].
  destruct (communalites_population_scaled X4 acp4 attrs4 [LStr "x"]
              1 U4 S4 V4 acp4_fitted eq_refl Hn X4_population X4_pca)
    as [h [Hrun [_ Hval]]].
  exists h. split; [exact Hrun|]. apply (Hval 0%nat). lia.
Defined.

End ExactMoreRuns.
